(** * The Secure Future corpus estimator: projection engine and formatting

    A shallow embedding of [src/types.ts] and [src/utils/formatters.ts].

    Numbers.  The program computes on JavaScript numbers, IEEE 754
    binary64.  The engine is embedded twice.  [F64] computes on binary64
    itself, the primitive floats that [SpecFloat] specifies bit by bit:
    every operation rounds to nearest, overflows to an infinity and keeps
    the sign of a zero.  It carries the statements about the numbers a run
    produces: the case split of the corpus, the gap, the evaluations on
    concrete inputs.  [JSNum] keeps the special values (an infinity of
    either sign and NaN) and takes every finite value as an exact rational,
    kept in lowest terms by the operations: the program without rounding
    and without overflow.  It carries the statements on the shape of the
    chart and on the order and the algebra of the formulas.

    Inputs.  The three age fields are integers (spec section 3), so that
    every exponent handed to [Math.pow] is an integer.  The other numeric
    fields are any binary64 number in [F64]; in [JSNum] they are finite, as
    the form hands them over.

    Layout.  The definitions come first, module by module as the source
    files have them; the facts and the properties of the specification
    follow. *)

From Stdlib Require Import Floats.
From Stdlib Require Import ZArith QArith Qround Qabs Qpower.
From Stdlib Require Import List String Ascii DecimalString Bool Lia Lqa.
Import ListNotations.

Set Warnings "-inexact-float".

Open Scope Q_scope.

(* ------------------------------------------------------------------ *)
(** ** JavaScript numbers over exact rationals *)

Module JSNum.

Inductive num : Type :=
| Fin (q : Q)
| PInf
| NInf
| NaN.

(** A finite result, in lowest terms. *)
Definition fin (q : Q) : num := Fin (Qred q).

Definition isNaN (a : num) : bool :=
  match a with NaN => true | _ => false end.

Definition isFinite (a : num) : bool :=
  match a with Fin _ => true | _ => false end.

(** Sign of a number as a comparison with zero; NaN has no sign and is
    mapped to [Eq] only where the caller has excluded it. *)
Definition sgn (a : num) : comparison :=
  match a with
  | Fin q => q ?= 0
  | PInf => Gt
  | NInf => Lt
  | NaN => Eq
  end.

Definition sgn_mul (s t : comparison) : comparison :=
  match s with
  | Eq => Eq
  | Gt => t
  | Lt => CompOpp t
  end.

(** The infinity of a given sign; a zero sign stands for the invalid
    operations (0 * Infinity, 0 / 0), which yield NaN. *)
Definition inf_of (s : comparison) : num :=
  match s with
  | Gt => PInf
  | Lt => NInf
  | Eq => NaN
  end.

Definition neg (a : num) : num :=
  match a with
  | Fin q => fin (- q)
  | PInf => NInf
  | NInf => PInf
  | NaN => NaN
  end.

Definition add (a b : num) : num :=
  match a, b with
  | NaN, _ | _, NaN => NaN
  | Fin x, Fin y => fin (x + y)
  | PInf, NInf | NInf, PInf => NaN
  | PInf, _ | _, PInf => PInf
  | NInf, _ | _, NInf => NInf
  end.

Definition sub (a b : num) : num := add a (neg b).

Definition mul (a b : num) : num :=
  match a, b with
  | NaN, _ | _, NaN => NaN
  | Fin x, Fin y => fin (x * y)
  | _, _ => inf_of (sgn_mul (sgn a) (sgn b))
  end.

(** Division.  A finite value over zero is an infinity of the sign of the
    dividend (the zero is taken as +0), and 0 / 0 is NaN. *)
Definition div (a b : num) : num :=
  match a, b with
  | NaN, _ | _, NaN => NaN
  | Fin x, Fin y =>
      if Qeq_bool y 0 then inf_of (x ?= 0) else fin (x / y)
  | Fin _, _ => Fin 0
  | _, Fin y =>
      inf_of (sgn_mul (sgn a) (if Qle_bool 0 y then Gt else Lt))
  | _, _ => NaN
  end.

(** [Math.pow] at an integer exponent. *)
Definition pow (a : num) (n : Z) : num :=
  if (n =? 0)%Z then Fin 1
  else match a with
       | NaN => NaN
       | PInf => if (0 <? n)%Z then PInf else Fin 0
       | NInf =>
           if (0 <? n)%Z then (if Z.odd n then NInf else PInf) else Fin 0
       | Fin q =>
           if Qeq_bool q 0 && (n <? 0)%Z then PInf else fin (q ^ n)
       end.

(** [Math.abs]. *)
Definition abs (a : num) : num :=
  match a with
  | Fin q => fin (Qabs q)
  | PInf | NInf => PInf
  | NaN => NaN
  end.

Definition Qltb (x y : Q) : bool :=
  match x ?= y with Lt => true | _ => false end.

(** The relational operator [<]: false as soon as one side is NaN. *)
Definition ltb (a b : num) : bool :=
  match a, b with
  | NaN, _ | _, NaN => false
  | Fin x, Fin y => Qltb x y
  | NInf, NInf | PInf, _ => false
  | NInf, _ => true
  | Fin _, PInf => true
  | Fin _, NInf => false
  end.

(** The relational operator [>=]. *)
Definition geb (a b : num) : bool :=
  match a, b with
  | NaN, _ | _, NaN => false
  | _, _ => negb (ltb a b)
  end.

(** The relational operator [<=]. *)
Definition leb (a b : num) : bool :=
  match a, b with
  | NaN, _ | _, NaN => false
  | _, _ => negb (ltb b a)
  end.

(** [Math.max] of two arguments: NaN if either is NaN. *)
Definition max (a b : num) : num :=
  match a, b with
  | NaN, _ | _, NaN => NaN
  | _, _ => if ltb a b then b else a
  end.

(** [Math.round]: the nearest integer, a tie going up. *)
Definition round (a : num) : num :=
  match a with
  | Fin q => Fin (inject_Z (Qfloor (q + (1 # 2))))
  | _ => a
  end.

(** Two numbers denote the same value: rationals up to [Qeq]. *)
Definition equiv (a b : num) : Prop :=
  match a, b with
  | Fin x, Fin y => x == y
  | PInf, PInf | NInf, NInf | NaN, NaN => True
  | _, _ => False
  end.

Definition ofZ (z : Z) : num := Fin (inject_Z z).

End JSNum.

Import JSNum.

Declare Scope num_scope.
Delimit Scope num_scope with num.
Bind Scope num_scope with num.
Infix "+" := add : num_scope.
Infix "-" := sub : num_scope.
Infix "*" := mul : num_scope.
Infix "/" := div : num_scope.
Infix "<?" := ltb : num_scope.
Infix ">=?" := geb (at level 70) : num_scope.
Infix "<=?" := leb : num_scope.
Infix "~=" := equiv (at level 70) : num_scope.

(* ------------------------------------------------------------------ *)
(** ** [src/types.ts] *)

Module Types.

Record CalculatorState : Type := {
  currentAge : Z;
  retirementAge : Z;
  lifeExpectancy : Z;
  currentMonthlyExpenses : Q;
  lifestyleFactor : Q;
  existingSavings : Q;
  assumedInflation : Q;
  postRetirementROI : Q;
  specificGoals : string
}.

Record ChartPoint : Type := {
  age : Z;
  balance : num;
  expenses : num
}.

Record CalculationResult : Type := {
  yearsToRetirement : Z;
  yearsInRetirement : Z;
  monthlyExpenseAtRetirement : num;
  requiredCorpus : num;
  projectedExistingSavings : num;
  gap : num;
  chartData : list ChartPoint
}.

End Types.

(* ------------------------------------------------------------------ *)
(** ** [src/utils/formatters.ts]: the projection engine *)

Module Formatters.

Import Types.

Local Open Scope num_scope.

(** Running state of the chart loop: the two [let] variables and the
    array under construction. *)
Record LoopState : Type := {
  currentBalance : num;
  currentAnnualExpense : num;
  chart : list ChartPoint
}.

Section Engine.

Variable state : CalculatorState.

Definition inflationRate : num := Fin (assumedInflation state) / Fin 100.
Definition roiRate : num := Fin (postRetirementROI state).

(** Timeframes *)
Definition yearsToRetirement : Z :=
  Z.max 0 (retirementAge state - currentAge state).
Definition yearsInRetirement : Z :=
  Z.max 0 (lifeExpectancy state - retirementAge state).

(** Expense calculations *)
Definition adjustedBaseMonthly : num :=
  Fin (currentMonthlyExpenses state) * Fin (lifestyleFactor state).
Definition monthlyExpenseAtRetirement : num :=
  adjustedBaseMonthly * pow (Fin 1 + inflationRate) yearsToRetirement.
Definition annualExpenseAtRetirement : num :=
  monthlyExpenseAtRetirement * Fin 12.

(** Real rate of return = (1 + nominal) / (1 + inflation) - 1 *)
Definition realRate : num :=
  (Fin 1 + roiRate) / (Fin 1 + inflationRate) - Fin 1.

(** Corpus requirement: [let requiredCorpus = 0] and the nested [if]. *)
Definition requiredCorpus : num :=
  if (0 <? yearsInRetirement)%Z then
    if abs realRate <? Fin (1 # 10000) then
      annualExpenseAtRetirement * ofZ yearsInRetirement
    else
      annualExpenseAtRetirement *
      ((Fin 1 - pow (Fin 1 + realRate) (- yearsInRetirement)) / realRate)
  else Fin 0.

(** Existing savings projection *)
Definition accumulationRate : num := Fin (1 # 10).
Definition projectedExistingSavings : num :=
  Fin (existingSavings state) * pow (Fin 1 + accumulationRate) yearsToRetirement.

Definition gap : num := max (Fin 0) (requiredCorpus - projectedExistingSavings).

(** Chart data generation.  One pass of the loop body after the [break]
    test: push the point, then update the two variables. *)
Definition loop_body (age : Z) (st : LoopState) : LoopState :=
  let pushed :=
    chart st ++
    [ {| Types.age := age;
         balance := max (Fin 0) (round (currentBalance st));
         expenses := round (currentAnnualExpense st) |} ] in
  if (age <? lifeExpectancy state)%Z then
    let growth := currentBalance st * roiRate in
    {| currentBalance := currentBalance st + growth - currentAnnualExpense st;
       currentAnnualExpense := currentAnnualExpense st * (Fin 1 + inflationRate);
       chart := pushed |}
  else
    {| currentBalance := Fin 0;
       currentAnnualExpense := currentAnnualExpense st;
       chart := pushed |}.

(** The [for] loop over the values taken by [year], with its [break]. *)
Fixpoint chart_loop (years : list Z) (st : LoopState) : LoopState :=
  match years with
  | [] => st
  | year :: rest =>
      let age := (retirementAge state + year)%Z in
      if (lifeExpectancy state + 5 <? age)%Z then st
      else chart_loop rest (loop_body age st)
  end.

(** The values of [year] for which [year <= yearsInRetirement + 5]. *)
Definition loop_years : list Z :=
  map Z.of_nat (seq 0 (Z.to_nat (yearsInRetirement + 5 + 1))).

(** [let currentBalance = requiredCorpus], [let currentAnnualExpense =
    annualExpenseAtRetirement] and [const chartData = []]. *)
Definition loop_init : LoopState :=
  {| currentBalance := requiredCorpus;
     currentAnnualExpense := annualExpenseAtRetirement;
     chart := [] |}.

Definition chartData : list ChartPoint :=
  chart (chart_loop loop_years loop_init).

(** The loop state on entry to the pass for [year = k], as long as the
    loop gets there: [k] passes of the body from the initial state. *)
Fixpoint loop_state (k : nat) : LoopState :=
  match k with
  | O => loop_init
  | S k' => loop_body (retirementAge state + Z.of_nat k')%Z (loop_state k')
  end.

(** The point pushed by the pass for [year = k]. *)
Definition pushed_point (k : nat) : ChartPoint :=
  {| Types.age := (retirementAge state + Z.of_nat k)%Z;
     balance := max (Fin 0) (round (currentBalance (loop_state k)));
     expenses := round (currentAnnualExpense (loop_state k)) |}.

(** The divisors of the divisions the function performs, in program
    order: [assumedInflation / 100], the quotient in [realRate], and the
    quotient of the annuity formula when that branch is taken. *)
Definition divisors : list num :=
  Fin 100 :: (Fin 1 + inflationRate) ::
  (if (0 <? yearsInRetirement)%Z then
     if abs realRate <? Fin (1 # 10000) then [] else [realRate]
   else []).

Definition calculateRetirementMetrics : CalculationResult :=
  {| Types.yearsToRetirement := yearsToRetirement;
     Types.yearsInRetirement := yearsInRetirement;
     Types.monthlyExpenseAtRetirement := monthlyExpenseAtRetirement;
     Types.requiredCorpus := requiredCorpus;
     Types.projectedExistingSavings := projectedExistingSavings;
     Types.gap := gap;
     Types.chartData := chartData |}.

End Engine.

(** *** Currency formatting *)

Section Formatting.

(** [new Intl.NumberFormat('en-IN', {style: 'currency', currency: 'INR',
    maximumFractionDigits: 0}).format], a service of the platform. *)
Variable intlFormat : num -> string.

Definition formatINR (amount : num) : string :=
  if isNaN amount then "₹0" else intlFormat amount.

End Formatting.

End Formatters.

(* ------------------------------------------------------------------ *)
(** ** The platform's currency formatter

    What [Intl.NumberFormat] renders for the locale and options
    [formatINR] passes: the rupee sign, no fraction digits (a tie rounds
    away from zero), digits grouped the Indian way (the last three, then by
    two), and the infinity sign for an infinite amount. *)

Module Intl.

Definition digits (n : N) : list ascii :=
  list_ascii_of_string (NilEmpty.string_of_uint (N.to_uint n)).

Fixpoint group2 (l : list ascii) : list ascii :=
  match l with
  | a :: b :: ((_ :: _) as rest) => a :: b :: ","%char :: group2 rest
  | _ => l
  end.

(** Grouping, on the digits from the least significant one. *)
Definition group_indian (l : list ascii) : list ascii :=
  match l with
  | a :: b :: c :: ((_ :: _) as rest) =>
      a :: b :: c :: ","%char :: group2 rest
  | _ => l
  end.

Definition grouped (n : N) : string :=
  match n with
  | N0 => "0"
  | _ => string_of_list_ascii (rev (group_indian (rev (digits n))))
  end.

Definition en_IN_currency (a : num) : string :=
  match a with
  | NaN => "₹NaN"
  | PInf => "₹∞"
  | NInf => "-₹∞"
  | Fin q =>
      let magnitude := Z.to_N (Qfloor (Qabs q + (1 # 2))) in
      ((if Qle_bool 0 q then "" else "-") ++ "₹" ++ grouped magnitude)%string
  end.

End Intl.

Import Types.
Import Formatters.


(* ------------------------------------------------------------------ *)
(** ** Inputs used in the statements *)

Definition with_inflation (s : CalculatorState) (a : Q) : CalculatorState :=
  {| currentAge := currentAge s;
     retirementAge := retirementAge s;
     lifeExpectancy := lifeExpectancy s;
     currentMonthlyExpenses := currentMonthlyExpenses s;
     lifestyleFactor := lifestyleFactor s;
     existingSavings := existingSavings s;
     assumedInflation := a;
     postRetirementROI := postRetirementROI s;
     specificGoals := specificGoals s |}.

Definition with_ROI (s : CalculatorState) (r : Q) : CalculatorState :=
  {| currentAge := currentAge s;
     retirementAge := retirementAge s;
     lifeExpectancy := lifeExpectancy s;
     currentMonthlyExpenses := currentMonthlyExpenses s;
     lifestyleFactor := lifestyleFactor s;
     existingSavings := existingSavings s;
     assumedInflation := assumedInflation s;
     postRetirementROI := r;
     specificGoals := specificGoals s |}.

(** The quantities of the engine as rational functions of the input, for
    the inputs on which no operation leaves the finite numbers. *)
Definition realRateQ (s : CalculatorState) : Q :=
  (1 + postRetirementROI s) / (1 + assumedInflation s / 100) - 1.

Definition annualExpenseQ (s : CalculatorState) : Q :=
  currentMonthlyExpenses s * lifestyleFactor s *
  (1 + assumedInflation s / 100) ^ Formatters.yearsToRetirement s * 12.

Definition requiredCorpusQ (s : CalculatorState) : Q :=
  if (0 <? Formatters.yearsInRetirement s)%Z then
    if Qltb (Qabs (realRateQ s)) (1 # 10000) then
      annualExpenseQ s * inject_Z (Formatters.yearsInRetirement s)
    else
      annualExpenseQ s *
      ((1 - (1 + realRateQ s) ^ (- Formatters.yearsInRetirement s)) /
       realRateQ s)
  else 0.

(** [t + t^2 + ... + t^k]: the value of [k] yearly payments of one unit
    at the discount factor [t]. *)
Fixpoint geom (t : Q) (k : nat) : Q :=
  match k with
  | O => 0
  | S k' => t * (1 + geom t k')
  end.

(** The factor that multiplies the annual expense in [requiredCorpusQ]. *)
Definition annuityFactorQ (r : Q) (n : Z) : Q :=
  if Qltb (Qabs r) (1 # 10000) then inject_Z n
  else (1 - (1 + r) ^ (- n)) / r.

(** Positive currency amounts and lifestyle factor, non-negative rates. *)
Definition valid_input (s : CalculatorState) : Prop :=
  0 < currentMonthlyExpenses s /\ 0 < lifestyleFactor s /\
  0 < existingSavings s /\ 0 <= assumedInflation s /\
  0 <= postRetirementROI s.

(** The scenario of spec section 8 (the application's initial state). *)
Definition scenario : CalculatorState :=
  {| currentAge := 45; retirementAge := 55; lifeExpectancy := 85;
     currentMonthlyExpenses := 100000; lifestyleFactor := 1;
     existingSavings := 5000000; assumedInflation := 6;
     postRetirementROI := 8 # 100; specificGoals := EmptyString |}.

(** A plan that retires ten years after the life expectancy entered. *)
Definition late_retirement : CalculatorState :=
  {| currentAge := 45; retirementAge := 60; lifeExpectancy := 50;
     currentMonthlyExpenses := 100000; lifestyleFactor := 1;
     existingSavings := 5000000; assumedInflation := 6;
     postRetirementROI := 8 # 100; specificGoals := EmptyString |}.

(** The scenario under an inflation of -100 percent. *)
Definition total_deflation : CalculatorState := with_inflation scenario (-100).

(** Savings that already exceed the corpus. *)
Definition well_funded : CalculatorState :=
  {| currentAge := 45; retirementAge := 55; lifeExpectancy := 85;
     currentMonthlyExpenses := 100000; lifestyleFactor := 1;
     existingSavings := 50000000; assumedInflation := 6;
     postRetirementROI := 8 # 100; specificGoals := EmptyString |}.

(* ------------------------------------------------------------------ *)
(** ** [src/utils/formatters.ts]: the compact format *)

(** [Number.prototype.toFixed(2)], a service of the platform: the nearest
    multiple of 1/100 of the magnitude (a tie goes up), written with two
    fraction digits after the sign.  A value that is not finite, or whose
    magnitude is 10^21 or more, is written as [String] writes it. *)
Module NumberFormat.

Definition dec (n : Z) : string :=
  NilEmpty.string_of_uint (N.to_uint (Z.to_N n)).

Definition two_digits (n : Z) : string :=
  ((if (n <? 10)%Z then "0" else "") ++ dec n)%string.

(** The integer [n] for which [n / 100] is nearest to the magnitude. *)
Definition hundredths (q : Q) : Z := Qfloor (Qabs q * 100 + (1 # 2)).

Definition fixed2 (q : Q) : string :=
  let n := hundredths q in
  ((if Qltb q 0 then "-" else "") ++
   dec (n / 100) ++ "." ++ two_digits (n mod 100))%string.

Section toFixed.

(** [String(x)] for a finite [x] of magnitude 10^21 or more. *)
Variable largeToString : Q -> string.

Definition toFixed2 (a : num) : string :=
  match a with
  | NaN => "NaN"
  | PInf => "Infinity"
  | NInf => "-Infinity"
  | Fin q =>
      if Qle_bool (10 ^ 21) (Qabs q) then largeToString q else fixed2 q
  end.

End toFixed.

End NumberFormat.

Module Compact.

Section formatCompactINR.

Variable intlFormat : num -> string.
Variable largeToString : Q -> string.

Definition formatCompactINR (amount : num) : string :=
  if (amount >=? Fin 10000000)%num then
    ("₹" ++
     NumberFormat.toFixed2 largeToString (amount / Fin 10000000)%num ++
     " Cr")%string
  else if (amount >=? Fin 100000)%num then
    ("₹" ++
     NumberFormat.toFixed2 largeToString (amount / Fin 100000)%num ++
     " L")%string
  else formatINR intlFormat amount.

End formatCompactINR.

End Compact.

(* ------------------------------------------------------------------ *)
(** ** [src/App.tsx]: the gap card *)

Module App.

Section GapCard.

Variable intlFormat : num -> string.
Variable largeToString : Q -> string.

(** [result.gap > 0 ? "Shortfall Gap" : "Surplus Wealth"] *)
Definition gapHeading (result : CalculationResult) : string :=
  if (Fin 0 <? Types.gap result)%num then "Shortfall Gap"
  else "Surplus Wealth".

(** [formatCompactINR(Math.abs(result.gap))] *)
Definition gapAmount (result : CalculationResult) : string :=
  Compact.formatCompactINR intlFormat largeToString
    (abs (Types.gap result)).

End GapCard.

End App.

(* ------------------------------------------------------------------ *)
(** ** The input components (second part of [src/utils/formatters.ts]) *)

Module InputComponents.

(** A number taken as a condition: zero and NaN count as false. *)
Definition truthy (a : num) : bool :=
  match a with
  | NaN => false
  | Fin q => negb (Qeq_bool q 0)
  | PInf | NInf => true
  end.

(** [a || b] on numbers. *)
Definition orElse (a b : num) : num := if truthy a then a else b.

Section NumberInput.

(** [parseFloat], a service of the platform. *)
Variable parseFloat : string -> num.

(** The value [NumberInput] hands to [onChange]:
    [parseFloat(e.target.value) || 0]. *)
Definition numberInputChange (text : string) : num :=
  orElse (parseFloat text) (Fin 0).

End NumberInput.

(** [SliderInput]: [((value - min) / (max - min)) * 100]. *)
Definition sliderPercentage (value min max : num) : num :=
  ((value - min) / (max - min) * Fin 100)%num.

End InputComponents.

(* ------------------------------------------------------------------ *)
(** ** Further inputs and rational counterparts *)

Definition with_lifeExpectancy (s : CalculatorState) (l : Z)
  : CalculatorState :=
  {| currentAge := currentAge s;
     retirementAge := retirementAge s;
     lifeExpectancy := l;
     currentMonthlyExpenses := currentMonthlyExpenses s;
     lifestyleFactor := lifestyleFactor s;
     existingSavings := existingSavings s;
     assumedInflation := assumedInflation s;
     postRetirementROI := postRetirementROI s;
     specificGoals := specificGoals s |}.

Definition with_savings (s : CalculatorState) (e : Q) : CalculatorState :=
  {| currentAge := currentAge s;
     retirementAge := retirementAge s;
     lifeExpectancy := lifeExpectancy s;
     currentMonthlyExpenses := currentMonthlyExpenses s;
     lifestyleFactor := lifestyleFactor s;
     existingSavings := e;
     assumedInflation := assumedInflation s;
     postRetirementROI := postRetirementROI s;
     specificGoals := specificGoals s |}.

(** The two variables of the chart loop as rationals: the pair (balance,
    expense) on entry to pass [k]. *)
Fixpoint trajectoryQ (s : CalculatorState) (k : nat) : Q * Q :=
  match k with
  | O => (requiredCorpusQ s, annualExpenseQ s)
  | S k' =>
      let (b, e) := trajectoryQ s k' in
      if (retirementAge s + Z.of_nat k' <? lifeExpectancy s)%Z then
        (b + b * postRetirementROI s - e, e * (1 + assumedInflation s / 100))
      else (0, e)
  end.

(** The form's defaults, with a return equal to the inflation. *)
Definition level_rates : CalculatorState := with_ROI scenario (6 # 100).

(** A plan that retires at the life expectancy entered. *)
Definition no_horizon : CalculatorState := with_lifeExpectancy scenario 55.

(* ------------------------------------------------------------------ *)
(** ** The projection engine on binary64 numbers

    The same function on the numbers the program runs on: IEEE 754
    binary64, every operation rounded to nearest (ties to even), with
    overflow to an infinity, gradual underflow, signed zeros and NaN, as
    the primitive floats and their specification [SpecFloat] have them.
    The age fields stay integers. *)

Module F64.

Local Open Scope float_scope.

(** The number of an integer (an age, a count of years). *)
Definition ofZ (z : Z) : float :=
  SF2Prim (binary_normalize prec emax z 0 false).

(** [Math.max] of two arguments: NaN if either is NaN, and +0 counts as
    larger than -0. *)
Definition max (a b : float) : float :=
  if is_nan a then a
  else if is_nan b then b
  else if a <? b then b
  else if b <? a then a
  else if get_sign a then b else a.

(** [Math.round]: the nearest integer, a tie going up; a result that is
    zero keeps the sign of the argument.  A finite number [m * 2^e] with
    [e >= 0] is an integer already. *)
Definition round (x : float) : float :=
  match Prim2SF x with
  | S754_finite s m (Zneg p) =>
      let n :=
        ((2 * cond_Zopp s (Zpos m) + Z.pow_pos 2 p) /
         Z.pow_pos 2 (Pos.succ p))%Z in
      SF2Prim (binary_normalize prec emax n 0 s)
  | _ => x
  end.

(** A reference [Math.pow] for integer exponents, after the library of
    the V8 engine (fdlibm's [e_pow.c]).  At the exponents 0, 1, -1 and 2
    the library returns [1], [x], [1 / x] and [x * x]; at the other
    exponents its result is within one unit in the last place of the
    exact power, for which the product of [n] factors stands here.  The
    statements about every input take [Math.pow] as a parameter; the
    reference serves the evaluations on concrete inputs. *)
Definition Math_pow (x : float) (n : Z) : float :=
  match n with
  | Z0 => 1
  | Zpos p => Pos.iter (fun y => y * x) 1 p
  | Zneg p => 1 / Pos.iter (fun y => y * x) 1 p
  end.

(** The records of [src/types.ts] over these numbers. *)
Module Types.

Record CalculatorState : Type := {
  currentAge : Z;
  retirementAge : Z;
  lifeExpectancy : Z;
  currentMonthlyExpenses : float;
  lifestyleFactor : float;
  existingSavings : float;
  assumedInflation : float;
  postRetirementROI : float;
  specificGoals : string
}.

Record ChartPoint : Type := {
  age : Z;
  balance : float;
  expenses : float
}.

Record CalculationResult : Type := {
  yearsToRetirement : Z;
  yearsInRetirement : Z;
  monthlyExpenseAtRetirement : float;
  requiredCorpus : float;
  projectedExistingSavings : float;
  gap : float;
  chartData : list ChartPoint
}.

End Types.

Import Types.

Record LoopState : Type := {
  currentBalance : float;
  currentAnnualExpense : float;
  chart : list ChartPoint
}.

Section Engine.

(** [Math.pow], at the integer exponents the function hands to it. *)
Variable pow : float -> Z -> float.

Variable state : CalculatorState.

Definition inflationRate : float := assumedInflation state / 100.
Definition roiRate : float := postRetirementROI state.

Definition yearsToRetirement : Z :=
  Z.max 0 (retirementAge state - currentAge state).
Definition yearsInRetirement : Z :=
  Z.max 0 (lifeExpectancy state - retirementAge state).

Definition adjustedBaseMonthly : float :=
  currentMonthlyExpenses state * lifestyleFactor state.
Definition monthlyExpenseAtRetirement : float :=
  adjustedBaseMonthly * pow (1 + inflationRate) yearsToRetirement.
Definition annualExpenseAtRetirement : float :=
  monthlyExpenseAtRetirement * 12.

Definition realRate : float := (1 + roiRate) / (1 + inflationRate) - 1.

Definition requiredCorpus : float :=
  if (0 <? yearsInRetirement)%Z then
    if PrimFloat.abs realRate <? 0.0001 then
      annualExpenseAtRetirement * ofZ yearsInRetirement
    else
      annualExpenseAtRetirement *
      ((1 - pow (1 + realRate) (- yearsInRetirement)) / realRate)
  else 0.

Definition accumulationRate : float := 0.10.
Definition projectedExistingSavings : float :=
  existingSavings state * pow (1 + accumulationRate) yearsToRetirement.

Definition gap : float := max 0 (requiredCorpus - projectedExistingSavings).

Definition loop_body (age : Z) (st : LoopState) : LoopState :=
  let pushed :=
    chart st ++
    [ {| Types.age := age;
         balance := max 0 (round (currentBalance st));
         expenses := round (currentAnnualExpense st) |} ] in
  if (age <? lifeExpectancy state)%Z then
    let growth := currentBalance st * roiRate in
    {| currentBalance := currentBalance st + growth - currentAnnualExpense st;
       currentAnnualExpense := currentAnnualExpense st * (1 + inflationRate);
       chart := pushed |}
  else
    {| currentBalance := 0;
       currentAnnualExpense := currentAnnualExpense st;
       chart := pushed |}.

Fixpoint chart_loop (years : list Z) (st : LoopState) : LoopState :=
  match years with
  | [] => st
  | year :: rest =>
      let age := (retirementAge state + year)%Z in
      if (lifeExpectancy state + 5 <? age)%Z then st
      else chart_loop rest (loop_body age st)
  end.

Definition loop_years : list Z :=
  map Z.of_nat (seq 0 (Z.to_nat (yearsInRetirement + 5 + 1))).

Definition loop_init : LoopState :=
  {| currentBalance := requiredCorpus;
     currentAnnualExpense := annualExpenseAtRetirement;
     chart := [] |}.

Definition chartData : list ChartPoint :=
  chart (chart_loop loop_years loop_init).

Definition calculateRetirementMetrics : CalculationResult :=
  {| Types.yearsToRetirement := yearsToRetirement;
     Types.yearsInRetirement := yearsInRetirement;
     Types.monthlyExpenseAtRetirement := monthlyExpenseAtRetirement;
     Types.requiredCorpus := requiredCorpus;
     Types.projectedExistingSavings := projectedExistingSavings;
     Types.gap := gap;
     Types.chartData := chartData |}.

End Engine.

(** The exact value of a finite number. *)
Definition toQ (x : float) : Q :=
  match Prim2SF x with
  | S754_finite s m e => (inject_Z (cond_Zopp s (Zpos m)) * 2 ^ e)%Q
  | _ => 0%Q
  end.

Section Formatting.

(** The services of the platform: the currency formatter of [formatINR]
    and [String(x)] for a finite [x] of magnitude 10^21 or more. *)
Variable intlFormat : float -> string.
Variable largeToString : float -> string.

(** [Number.prototype.toFixed(2)]: the decimals are those of the exact
    value of the binary64 number. *)
Definition toFixed2 (x : float) : string :=
  if is_nan x then "NaN"
  else if x =? infinity then "Infinity"
  else if x =? neg_infinity then "-Infinity"
  else if 1e21 <=? PrimFloat.abs x then largeToString x
  else NumberFormat.fixed2 (toQ x).

Definition formatINR (amount : float) : string :=
  if is_nan amount then "₹0" else intlFormat amount.

(** [amount >= c] is [c <= amount]. *)
Definition formatCompactINR (amount : float) : string :=
  if 10000000 <=? amount then
    ("₹" ++ toFixed2 (amount / 10000000) ++ " Cr")%string
  else if 100000 <=? amount then
    ("₹" ++ toFixed2 (amount / 100000) ++ " L")%string
  else formatINR amount.

End Formatting.

(** The scenario of spec section 8 with savings of five crore, which
    exceed the corpus. *)
Definition well_funded : CalculatorState :=
  {| currentAge := 45; retirementAge := 55; lifeExpectancy := 85;
     currentMonthlyExpenses := 100000; lifestyleFactor := 1;
     existingSavings := 50000000; assumedInflation := 6;
     postRetirementROI := 0.08; specificGoals := EmptyString |}.

(** A plan on the form's defaults: one year of retirement, starting now,
    under the inflation [i]. *)
Definition one_year (i : float) : CalculatorState :=
  {| currentAge := 55; retirementAge := 55; lifeExpectancy := 56;
     currentMonthlyExpenses := 100000; lifestyleFactor := 1;
     existingSavings := 5000000; assumedInflation := i;
     postRetirementROI := 0.08; specificGoals := EmptyString |}.

(** Two neighbouring inflations, near 6.000000000000016 and
    6.000000000000017. *)
Definition inflation_lo : float := 0x1.8000000000012p+2.
Definition inflation_hi : float := 0x1.8000000000013p+2.

(** The form's defaults with no inflation and a return of 0.0001: a real
    rate of 0.0001 before rounding. *)
Definition edge_of_band : CalculatorState :=
  {| currentAge := 45; retirementAge := 55; lifeExpectancy := 85;
     currentMonthlyExpenses := 100000; lifestyleFactor := 1;
     existingSavings := 5000000; assumedInflation := 0;
     postRetirementROI := 0.0001; specificGoals := EmptyString |}.

(** Amounts near the largest binary64 number: expenses of 2^1023 at a
    lifestyle factor of 2, savings of 1.7e308, retirement in a year and
    for a year. *)
Definition huge_amounts : CalculatorState :=
  {| currentAge := 45; retirementAge := 46; lifeExpectancy := 47;
     currentMonthlyExpenses := 0x1p+1023; lifestyleFactor := 2;
     existingSavings := 1.7e308; assumedInflation := 6;
     postRetirementROI := 0.08; specificGoals := EmptyString |}.

(** The scenario of spec section 8 (the application's initial state). *)
Definition scenario : CalculatorState :=
  {| currentAge := 45; retirementAge := 55; lifeExpectancy := 85;
     currentMonthlyExpenses := 100000; lifestyleFactor := 1;
     existingSavings := 5000000; assumedInflation := 6;
     postRetirementROI := 0.08; specificGoals := EmptyString |}.

(** The scenario under an inflation of -100 percent. *)
Definition total_deflation : CalculatorState :=
  {| currentAge := 45; retirementAge := 55; lifeExpectancy := 85;
     currentMonthlyExpenses := 100000; lifestyleFactor := 1;
     existingSavings := 5000000; assumedInflation := -100;
     postRetirementROI := 0.08; specificGoals := EmptyString |}.

(** The scenario with a return equal to the inflation. *)
Definition level_rates : CalculatorState :=
  {| currentAge := 45; retirementAge := 55; lifeExpectancy := 85;
     currentMonthlyExpenses := 100000; lifestyleFactor := 1;
     existingSavings := 5000000; assumedInflation := 6;
     postRetirementROI := 0.06; specificGoals := EmptyString |}.

(** The classes of numbers that are zero or below, and above zero. *)
Definition SFnonpos (x : spec_float) : bool :=
  match x with
  | S754_zero _ | S754_infinity true | S754_finite true _ _ => true
  | _ => false
  end.

Definition SFpos (x : spec_float) : bool :=
  match x with
  | S754_infinity false | S754_finite false _ _ => true
  | _ => false
  end.

End F64.

(* ------------------------------------------------------------------ *)
(** ** Facts about the exact number model *)

Section NumFacts.

Local Open Scope num_scope.

#[global] Instance fin_proper : Proper (Qeq ==> eq) fin.
Proof.
  intros x y H. unfold fin. f_equal. now apply Qred_complete.
Qed.

Lemma fin_equiv (q : Q) : fin q ~= Fin q.
Proof. simpl. apply Qred_correct. Qed.

Lemma equiv_refl (a : num) : a ~= a.
Proof. destruct a; simpl; auto with qarith. Qed.

Lemma equiv_sym (a b : num) : a ~= b -> b ~= a.
Proof. destruct a, b; simpl; auto with qarith. Qed.

Lemma equiv_trans (a b c : num) : a ~= b -> b ~= c -> a ~= c.
Proof.
  destruct a, b, c; simpl; try tauto. intros H1 H2. now rewrite H1.
Qed.

#[global] Instance equiv_Equivalence : Equivalence equiv.
Proof.
  constructor; [exact equiv_refl | exact equiv_sym | exact equiv_trans].
Qed.

#[global] Instance eq_equiv : subrelation eq equiv.
Proof. intros a b ->. reflexivity. Qed.

(** The operations send equivalent arguments to equal results, since
    they return fractions in lowest terms. *)

Ltac by_cases :=
  repeat match goal with
         | a : num |- _ => destruct a
         end;
  cbn [equiv neg add sub mul div abs ltb geb leb round max sgn isNaN] in *;
  try tauto; try reflexivity.

#[global] Instance neg_proper : Proper (equiv ==> eq) neg.
Proof. intros a a' H. by_cases. now rewrite H. Qed.

#[global] Instance add_proper : Proper (equiv ==> equiv ==> eq) add.
Proof. intros a a' Ha b b' Hb. by_cases. now rewrite Ha, Hb. Qed.

#[global] Instance sub_proper : Proper (equiv ==> equiv ==> eq) sub.
Proof. intros a a' Ha b b' Hb. unfold sub. now rewrite Ha, Hb. Qed.

#[global] Instance sgn_proper : Proper (equiv ==> eq) sgn.
Proof. intros a a' H. by_cases. now rewrite H. Qed.

#[global] Instance mul_proper : Proper (equiv ==> equiv ==> eq) mul.
Proof.
  intros a a' Ha b b' Hb. by_cases; rewrite ?Ha, ?Hb; reflexivity.
Qed.

#[global] Instance div_proper : Proper (equiv ==> equiv ==> eq) div.
Proof.
  intros a a' Ha b b' Hb. by_cases; rewrite ?Ha, ?Hb; reflexivity.
Qed.

#[global] Instance pow_proper : Proper (equiv ==> eq ==> eq) pow.
Proof.
  intros a a' Ha n n' <-. unfold pow. destruct (n =? 0)%Z; [reflexivity|].
  by_cases.
  assert (Qeq_bool q0 0 = Qeq_bool q 0) as -> by now rewrite Ha.
  assert (fin (q0 ^ n) = fin (q ^ n)) as -> by now rewrite Ha.
  reflexivity.
Qed.

#[global] Instance abs_proper : Proper (equiv ==> eq) abs.
Proof. intros a a' H. by_cases. now rewrite H. Qed.

#[global] Instance Qltb_proper : Proper (Qeq ==> Qeq ==> eq) Qltb.
Proof. intros x x' Hx y y' Hy. unfold Qltb. now rewrite Hx, Hy. Qed.

Lemma Qltb_lt (x y : Q) : Qltb x y = true <-> (x < y)%Q.
Proof.
  unfold Qltb. rewrite Qlt_alt. destruct (x ?= y); intuition discriminate.
Qed.

Lemma Qltb_ge (x y : Q) : Qltb x y = false <-> (y <= x)%Q.
Proof.
  split; intros H.
  - destruct (Qlt_le_dec x y) as [L|L]; [|exact L].
    apply Qltb_lt in L. congruence.
  - destruct (Qltb x y) eqn:E; [|reflexivity].
    apply Qltb_lt in E. lra.
Qed.

#[global] Instance ltb_proper : Proper (equiv ==> equiv ==> eq) ltb.
Proof. intros a a' Ha b b' Hb. by_cases. now rewrite Ha, Hb. Qed.

#[global] Instance round_proper : Proper (equiv ==> eq) round.
Proof. intros a a' H. by_cases. now rewrite H. Qed.

(** Arithmetic on finite values. *)
Lemma add_fin (x y : Q) : Fin x + Fin y = fin (x + y).
Proof. reflexivity. Qed.

Lemma sub_fin (x y : Q) : Fin x - Fin y = fin (x - y).
Proof.
  cbn [sub neg add]. unfold fin at 1. cbn iota.
  apply fin_proper. now rewrite Qred_correct.
Qed.

Lemma mul_fin (x y : Q) : Fin x * Fin y = fin (x * y).
Proof. reflexivity. Qed.

Lemma div_fin (x y : Q) : ~ (y == 0)%Q -> Fin x / Fin y = fin (x / y).
Proof.
  intros H. cbn [div]. destruct (Qeq_bool y 0) eqn:E; [|reflexivity].
  now apply Qeq_bool_iff in E.
Qed.

Lemma div_fin_zero (x y : Q) :
  (y == 0)%Q -> Fin x / Fin y = inf_of (x ?= 0)%Q.
Proof.
  intros H. cbn [div]. now rewrite (Qeq_eq_bool _ _ H).
Qed.

Lemma isFinite_Fin (a : num) : isFinite a = true <-> exists q, a = Fin q.
Proof.
  split.
  - destruct a as [q| | |]; try discriminate. intros _. now exists q.
  - intros (q & ->). reflexivity.
Qed.

Lemma equiv_Fin_finite (a : num) (q : Q) : a ~= Fin q -> isFinite a = true.
Proof. destruct a; cbn; intros H; try contradiction; reflexivity. Qed.

(** Growth of a balance: [b + b * r] is [b * (1 + r)], except for an
    infinite balance, where the two agree at a rate of -1 only. *)
Lemma growth_factor (b : num) (r : Q) :
  isFinite b = true \/ b = NaN \/ (r == -1)%Q ->
  b + b * Fin r = b * (Fin 1 + Fin r).
Proof.
  intros H. destruct b as [q| | |].
  - cbn [add mul]. unfold fin. cbn [add mul]. unfold fin.
    f_equal. apply Qred_complete. rewrite !Qred_correct. ring.
  - destruct H as [H|[H|H]]; try discriminate.
    cbn [add mul sgn sgn_mul]. unfold fin. cbn [add mul sgn sgn_mul].
    rewrite Qred_correct, H. reflexivity.
  - destruct H as [H|[H|H]]; try discriminate.
    cbn [add mul sgn sgn_mul]. unfold fin. cbn [add mul sgn sgn_mul].
    rewrite Qred_correct, H. reflexivity.
  - reflexivity.
Qed.

#[global] Instance max_proper : Proper (equiv ==> equiv ==> equiv) max.
Proof.
  intros a a' Ha b b' Hb.
  destruct a, a', b, b'; cbn [equiv max ltb] in *; try tauto;
    rewrite ?Ha, ?Hb; try (destruct (Qltb _ _)); cbn [equiv]; auto.
Qed.

End NumFacts.

(* ------------------------------------------------------------------ *)
(** ** Values of the intermediate quantities *)

Section EngineFacts.

Variable s : CalculatorState.

Local Open Scope num_scope.

Lemma yearsToRetirement_nonneg : (0 <= Formatters.yearsToRetirement s)%Z.
Proof. unfold Formatters.yearsToRetirement. lia. Qed.

Lemma yearsInRetirement_nonneg : (0 <= Formatters.yearsInRetirement s)%Z.
Proof. unfold Formatters.yearsInRetirement. lia. Qed.

Lemma pow_fin_nonneg (q : Q) (n : Z) :
  (0 <= n)%Z -> pow (Fin q) n ~= Fin (q ^ n).
Proof.
  intros Hn. unfold pow. destruct (n =? 0)%Z eqn:E.
  - apply Z.eqb_eq in E. subst n. reflexivity.
  - replace (n <? 0)%Z with false by (symmetry; apply Z.ltb_ge; lia).
    rewrite andb_false_r. apply fin_equiv.
Qed.

Lemma inflationRate_val :
  inflationRate s ~= Fin (assumedInflation s / 100).
Proof. unfold inflationRate. cbn [div]. apply fin_equiv. Qed.

Lemma one_plus_inflationRate_val :
  Fin 1 + inflationRate s ~= Fin (1 + assumedInflation s / 100).
Proof. rewrite inflationRate_val. cbn [add]. apply fin_equiv. Qed.

Lemma monthlyExpenseAtRetirement_val :
  Formatters.monthlyExpenseAtRetirement s ~=
  Fin (currentMonthlyExpenses s * lifestyleFactor s *
       (1 + assumedInflation s / 100) ^ Formatters.yearsToRetirement s).
Proof.
  unfold Formatters.monthlyExpenseAtRetirement, adjustedBaseMonthly.
  rewrite one_plus_inflationRate_val.
  rewrite (pow_fin_nonneg _ _ yearsToRetirement_nonneg).
  cbn [mul]. rewrite fin_equiv. cbn [mul]. apply fin_equiv.
Qed.

Lemma annualExpenseAtRetirement_val :
  annualExpenseAtRetirement s ~=
  Fin (currentMonthlyExpenses s * lifestyleFactor s *
       (1 + assumedInflation s / 100) ^ Formatters.yearsToRetirement s * 12).
Proof.
  unfold annualExpenseAtRetirement.
  rewrite monthlyExpenseAtRetirement_val. cbn [mul]. apply fin_equiv.
Qed.

Lemma projectedExistingSavings_val :
  Formatters.projectedExistingSavings s ~=
  Fin (existingSavings s * (11 # 10) ^ Formatters.yearsToRetirement s).
Proof.
  unfold Formatters.projectedExistingSavings, accumulationRate.
  cbn [add]. rewrite fin_equiv.
  rewrite (pow_fin_nonneg _ _ yearsToRetirement_nonneg).
  cbn [mul]. rewrite fin_equiv.
  assert (H : (1 + (1 # 10) == 11 # 10)%Q) by reflexivity.
  cbn [equiv]. now rewrite H.
Qed.

(** The divisor in [realRate] vanishes at an inflation of -100 percent
    and nowhere else. *)
Lemma one_plus_inflationRate_zero :
  Fin 1 + inflationRate s ~= Fin 0 <-> (assumedInflation s == -100)%Q.
Proof.
  rewrite one_plus_inflationRate_val. cbn [equiv].
  split; intros H.
  - assert (E : (assumedInflation s ==
                 (1 + assumedInflation s / 100) * 100 - 100)%Q) by field.
    rewrite E, H. reflexivity.
  - rewrite H. reflexivity.
Qed.

Lemma sub_one_inf (c : comparison) : inf_of c - Fin 1 = inf_of c.
Proof. destruct c; reflexivity. Qed.

(** The real rate away from an inflation of -100 percent ... *)
Lemma realRate_regular :
  ~ (assumedInflation s == -100)%Q ->
  realRate s ~=
  Fin ((1 + postRetirementROI s) / (1 + assumedInflation s / 100) - 1).
Proof.
  intros H. unfold realRate, roiRate.
  rewrite one_plus_inflationRate_val, add_fin, fin_equiv.
  rewrite div_fin, fin_equiv, sub_fin.
  - apply fin_equiv.
  - intros E. apply H. apply one_plus_inflationRate_zero.
    now rewrite one_plus_inflationRate_val.
Qed.

(** ... and at it: an infinity of the sign of [1 + postRetirementROI], or
    NaN when that is zero. *)
Lemma realRate_singular :
  (assumedInflation s == -100)%Q ->
  realRate s = inf_of (1 + postRetirementROI s ?= 0)%Q.
Proof.
  intros H. unfold realRate, roiRate.
  apply one_plus_inflationRate_zero in H.
  rewrite H, add_fin, fin_equiv, div_fin_zero by reflexivity.
  apply sub_one_inf.
Qed.

Lemma pow_fin_nonzero (q : Q) (n : Z) :
  ~ (q == 0)%Q -> pow (Fin q) n ~= Fin (q ^ n).
Proof.
  intros Hq. unfold pow. destruct (n =? 0)%Z eqn:E.
  - apply Z.eqb_eq in E. subst n. reflexivity.
  - destruct (Qeq_bool q 0) eqn:E0.
    + now apply Qeq_bool_iff in E0.
    + apply fin_equiv.
Qed.

Lemma realRateQ_plus_one :
  ~ (assumedInflation s == -100)%Q ->
  (1 + realRateQ s ==
   (1 + postRetirementROI s) / (1 + assumedInflation s / 100))%Q.
Proof. intros _. unfold realRateQ. ring. Qed.

Lemma one_plus_inflation_nonzero :
  ~ (assumedInflation s == -100)%Q ->
  ~ (1 + assumedInflation s / 100 == 0)%Q.
Proof.
  intros H E. apply H. apply one_plus_inflationRate_zero.
  now rewrite one_plus_inflationRate_val.
Qed.

Lemma realRateQ_plus_one_nonzero :
  ~ (assumedInflation s == -100)%Q ->
  ~ (postRetirementROI s == -1)%Q ->
  ~ (1 + realRateQ s == 0)%Q.
Proof.
  intros Hi Hr E. rewrite realRateQ_plus_one in E by exact Hi.
  apply one_plus_inflation_nonzero in Hi.
  apply Hr.
  pose proof (Qmult_div_r (1 + postRetirementROI s) _ Hi) as E'.
  rewrite E in E'. lra.
Qed.

(** Away from an inflation of -100 percent and a return of -100 percent
    the corpus is the rational function [requiredCorpusQ]. *)
Lemma requiredCorpus_regular :
  ~ (assumedInflation s == -100)%Q ->
  ~ (postRetirementROI s == -1)%Q ->
  Formatters.requiredCorpus s ~= Fin (requiredCorpusQ s).
Proof.
  intros Hi Hr. unfold Formatters.requiredCorpus, requiredCorpusQ.
  pose proof yearsInRetirement_nonneg as Hy.
  destruct (0 <? Formatters.yearsInRetirement s)%Z eqn:Ey; [|reflexivity].
  pose proof (realRate_regular Hi) as Hrr. fold (realRateQ s) in Hrr.
  pose proof annualExpenseAtRetirement_val as Ha.
  fold (annualExpenseQ s) in Ha.
  assert (Hg : (abs (realRate s) <? Fin (1 # 10000)) =
               Qltb (Qabs (realRateQ s)) (1 # 10000)).
  { rewrite Hrr. cbn [abs]. rewrite fin_equiv. reflexivity. }
  rewrite Hg.
  destruct (Qltb (Qabs (realRateQ s)) (1 # 10000)) eqn:Eg;
    rewrite ?Hrr, Ha.
  - unfold ofZ. rewrite mul_fin. apply fin_equiv.
  - rewrite add_fin, fin_equiv.
    rewrite (pow_fin_nonzero _ _ (realRateQ_plus_one_nonzero Hi Hr)).
    rewrite sub_fin, fin_equiv, div_fin, fin_equiv, mul_fin.
    + apply fin_equiv.
    + intros E. rewrite E in Eg. discriminate.
Qed.

(** At an inflation of -100 percent the real rate is infinite and the
    corpus is zero, unless the return is -100 percent too. *)
Lemma requiredCorpus_singular :
  (assumedInflation s == -100)%Q ->
  ~ (postRetirementROI s == -1)%Q ->
  Formatters.requiredCorpus s ~= Fin 0.
Proof.
  intros Hi Hr. unfold Formatters.requiredCorpus.
  destruct (0 <? Formatters.yearsInRetirement s)%Z eqn:Ey; [|reflexivity].
  apply Z.ltb_lt in Ey.
  rewrite (realRate_singular Hi).
  assert (Hn : (- Formatters.yearsInRetirement s =? 0)%Z = false)
    by (apply Z.eqb_neq; lia).
  assert (Hp : (0 <? - Formatters.yearsInRetirement s)%Z = false)
    by (apply Z.ltb_ge; lia).
  destruct (1 + postRetirementROI s ?= 0)%Q eqn:E.
  - exfalso. apply Hr. apply Qeq_alt in E. lra.
  - cbn [inf_of abs ltb add]. unfold pow. rewrite Hn, Hp.
    rewrite sub_fin. unfold fin at 1. cbn [div].
    rewrite annualExpenseAtRetirement_val, mul_fin, fin_equiv.
    cbn [equiv]. ring.
  - cbn [inf_of abs ltb add]. unfold pow. rewrite Hn, Hp.
    rewrite sub_fin. unfold fin at 1. cbn [div].
    rewrite annualExpenseAtRetirement_val, mul_fin, fin_equiv.
    cbn [equiv]. ring.
Qed.

(** The corpus is a finite number unless the return is -100 percent. *)
Lemma requiredCorpus_finite :
  ~ (postRetirementROI s == -1)%Q ->
  isFinite (Formatters.requiredCorpus s) = true.
Proof.
  intros Hr.
  assert (H : exists q, Formatters.requiredCorpus s ~= Fin q).
  { destruct (Qeq_dec (assumedInflation s) (-100)) as [Hi|Hi].
    - exists 0%Q. now apply requiredCorpus_singular.
    - exists (requiredCorpusQ s). now apply requiredCorpus_regular. }
  destruct H as (q & H).
  destruct (Formatters.requiredCorpus s); cbn in H; try contradiction.
  reflexivity.
Qed.

End EngineFacts.

(** [Math.max(0, x)] is never below zero (it is NaN when [x] is). *)
Lemma max_zero_not_negative (x : num) : (max (Fin 0) x <? Fin 0)%num = false.
Proof.
  destruct x as [q| | |]; cbn [max ltb]; try reflexivity.
  destruct (Qltb 0 q) eqn:E; cbn [ltb]; [|reflexivity].
  apply Qltb_lt in E. apply Qltb_ge. lra.
Qed.

(** [Math.max(0, r - p)] is zero when the finite [p] is at least [r]. *)
Lemma max_zero_surplus (p : Q) (r : num) :
  (Fin p >=? r)%num = true -> max (Fin 0) (r - Fin p)%num = Fin 0.
Proof.
  destruct r as [q| | |]; cbn [geb ltb sub neg add max]; try discriminate;
    try reflexivity.
  unfold fin. intros H.
  destruct (Qltb 0 (Qred (q + Qred (- p)))) eqn:E; [|reflexivity].
  exfalso. apply Qltb_lt in E. rewrite !Qred_correct in E.
  apply negb_true_iff, Qltb_ge in H. lra.
Qed.

(* ------------------------------------------------------------------ *)
(** ** Facts about binary64 numbers *)

(** Numbers of the format as [SpecFloat] has them: a sign, a mantissa and
    an exponent. *)
Section Binary64Facts.

Local Open Scope Z_scope.

Lemma digits2_pos_size (m : positive) : digits2_pos m = Pos.size m.
Proof. induction m; simpl; congruence. Qed.

Lemma iter_xO_pow2 (m d : positive) :
  Zpos (Pos.iter xO m d) = Zpos m * 2 ^ Zpos d.
Proof.
  induction d using Pos.peano_ind.
  - cbn. lia.
  - rewrite Pos.iter_succ, Pos2Z.inj_succ, Z.pow_succ_r by lia.
    transitivity (2 * Zpos (Pos.iter xO m d)); [reflexivity|].
    rewrite IHd. ring.
Qed.

Lemma size_bounds (m : positive) :
  2 ^ (Zpos (Pos.size m) - 1) <= Zpos m < 2 ^ Zpos (Pos.size m).
Proof.
  pose proof (Pos.size_gt m) as Hg. pose proof (Pos.size_le m) as Hl.
  apply Pos2Z.pos_lt_pos in Hg. apply Pos2Z.pos_le_pos in Hl.
  rewrite Pos2Z.inj_pow in Hg, Hl.
  replace (Zpos (Pos.size m)) with (Z.succ (Zpos (Pos.size m) - 1)) in Hl at 1
    by lia.
  rewrite Z.pow_succ_r in Hl by lia. lia.
Qed.

Lemma bounded_facts (m : positive) (e : Z) :
  bounded prec emax m e = true ->
  -1074 <= e /\ Zpos (Pos.size m) <= 53 /\
  (-1074 < e -> Zpos (Pos.size m) = 53).
Proof.
  unfold bounded, canonical_mantissa, fexp, SpecFloat.emin, prec, emax.
  rewrite digits2_pos_size.
  intros H. apply andb_true_iff in H. destruct H as [H _].
  apply Z.eqb_eq in H. lia.
Qed.

Lemma shl_align_fst (m : positive) (e ez : Z) :
  ez <= e -> Zpos (fst (shl_align m e ez)) = Zpos m * 2 ^ (e - ez).
Proof.
  intros H. unfold shl_align.
  destruct (ez - e) as [|d|d] eqn:E; cbn [fst].
  - replace (e - ez) with 0 by lia. cbn. lia.
  - lia.
  - rewrite iter_xO_pow2. f_equal. f_equal. lia.
Qed.

(** Of two numbers of the format with exponents [e1 < e2], the one with
    the larger exponent has the larger mantissa once both are aligned. *)
Lemma aligned_lt (m1 m2 : positive) (e1 e2 : Z) :
  bounded prec emax m1 e1 = true -> bounded prec emax m2 e2 = true ->
  e1 < e2 ->
  Zpos (fst (shl_align m1 e1 (Z.min e1 e2))) <
  Zpos (fst (shl_align m2 e2 (Z.min e1 e2))) /\
  Zpos (fst (shl_align m1 e1 (Z.min e2 e1))) <
  Zpos (fst (shl_align m2 e2 (Z.min e2 e1))).
Proof.
  intros H1 H2 He.
  apply bounded_facts in H1, H2.
  destruct H1 as (Hm1 & Hs1 & _), H2 as (_ & _ & Hs2).
  specialize (Hs2 ltac:(lia)).
  pose proof (size_bounds m1) as B1. pose proof (size_bounds m2) as B2.
  rewrite Hs2 in B2.
  assert (P1 : 2 ^ Zpos (Pos.size m1) <= 2 ^ 53)
    by (apply Z.pow_le_mono_r; lia).
  assert (P2 : 2 ^ 1 <= 2 ^ (e2 - e1)) by (apply Z.pow_le_mono_r; lia).
  change (2 ^ 1) with 2 in P2.
  change (2 ^ (53 - 1)) with 4503599627370496 in B2.
  change (2 ^ 53) with 9007199254740992 in *.
  rewrite (Z.min_comm e2 e1).
  replace (Z.min e1 e2) with e1 by lia.
  rewrite !shl_align_fst by lia.
  rewrite Z.sub_diag. change (2 ^ 0) with 1.
  nia.
Qed.

Lemma aligned_eq (m1 m2 : positive) (e : Z) :
  Zpos (fst (shl_align m1 e (Z.min e e))) = Zpos m1 /\
  Zpos (fst (shl_align m2 e (Z.min e e))) = Zpos m2.
Proof.
  rewrite Z.min_id, !shl_align_fst, Z.sub_diag by lia.
  change (2 ^ 0) with 1. lia.
Qed.

Lemma shr_1_nonneg (mrs : shr_record) :
  0 <= shr_m mrs -> 0 <= shr_m (shr_1 mrs).
Proof.
  destruct mrs as [m r s]. cbn [shr_m].
  destruct m as [|[p|p|]|[p|p|]]; cbn; lia.
Qed.

Lemma iter_shr_1_nonneg (p : positive) (mrs : shr_record) :
  0 <= shr_m mrs -> 0 <= shr_m (SpecFloat.iter_pos shr_1 p mrs).
Proof.
  revert mrs. induction p as [p IH|p IH|]; intros mrs H; cbn [iter_pos].
  - apply IH, IH. now apply shr_1_nonneg.
  - now apply IH, IH.
  - now apply shr_1_nonneg.
Qed.

Lemma shr_fexp_nonneg (m e : Z) (l : location) :
  0 <= m -> 0 <= shr_m (fst (shr_fexp prec emax m e l)).
Proof.
  intros H. unfold shr_fexp, shr.
  assert (H0 : 0 <= shr_m (shr_record_of_loc m l))
    by (destruct l as [|[]]; exact H).
  destruct (fexp prec emax (Zdigits2 m + e) - e); cbn [fst];
    [exact H0 | now apply iter_shr_1_nonneg | exact H0].
Qed.

Lemma round_nearest_even_nonneg (m : Z) (l : location) :
  0 <= m -> 0 <= round_nearest_even m l.
Proof.
  intros H. destruct l as [|[]]; cbn [round_nearest_even];
    try destruct (Z.even m); lia.
Qed.

(** Rounding keeps the sign: a negative number rounds to a negative
    number, to a zero or to the negative infinity. *)
Lemma binary_round_aux_neg (m e : Z) (l : location) :
  0 <= m -> F64.SFnonpos (binary_round_aux prec emax true m e l) = true.
Proof.
  intros H. unfold binary_round_aux.
  pose proof (shr_fexp_nonneg m e l H) as H1.
  destruct (shr_fexp prec emax m e l) as [mrs' e']. cbn [fst] in H1.
  pose proof (shr_fexp_nonneg _ e' loc_Exact
    (round_nearest_even_nonneg _ (loc_of_shr_record mrs') H1)) as H2.
  destruct (shr_fexp prec emax _ e' loc_Exact) as [mrs'' e''].
  cbn [fst] in H2.
  destruct (shr_m mrs'') as [|p|p]; [reflexivity | | lia].
  destruct (e'' <=? emax - prec); reflexivity.
Qed.

Lemma binary_normalize_nonpos (z e : Z) :
  z <= 0 -> F64.SFnonpos (binary_normalize prec emax z e false) = true.
Proof.
  intros H. destruct z as [|p|p]; [reflexivity | lia |].
  unfold binary_normalize, binary_round.
  destruct (shl_align p e _) as [mz ez].
  apply binary_round_aux_neg. lia.
Qed.

Lemma SFcompare_refl (x : spec_float) :
  x <> S754_nan -> SFcompare x x = Some Eq.
Proof.
  destruct x as [s|s| |s m e]; try (now destruct s); [congruence|].
  intros _. cbn [SFcompare]. rewrite Z.compare_refl.
  rewrite Pos.compare_cont_refl. now destruct s.
Qed.

(** [a - b] is zero or below when [a <= b], unless the two are the same
    infinity (the difference is then NaN). *)
Lemma SFsub_nonpos (x y : spec_float) :
  valid_binary x = true -> valid_binary y = true ->
  SFleb x y = true ->
  (forall s, x = S754_infinity s -> y <> S754_infinity s) ->
  F64.SFnonpos (SFsub prec emax x y) = true.
Proof.
  intros Vx Vy Hle Hinf. unfold SFleb in Hle.
  destruct x as [sx|sx| |sx mx ex], y as [sy|sy| |sy my ey];
    cbn [SFcompare] in Hle; cbn [SFsub F64.SFnonpos]; try discriminate Hle;
    try reflexivity.
  - now destruct sx, sy.
  - destruct sy; [discriminate Hle | reflexivity].
  - destruct sy; [discriminate Hle | reflexivity].
  - destruct sx; [reflexivity | discriminate Hle].
  - destruct sx, sy; try reflexivity; try discriminate Hle;
      exfalso; now apply (Hinf _ eq_refl).
  - destruct sx; [reflexivity | discriminate Hle].
  - destruct sx; [reflexivity | discriminate Hle].
  - destruct sy; [discriminate Hle | reflexivity].
  - cbn [SpecFloat.valid_binary] in Vx, Vy.
    apply binary_normalize_nonpos.
    destruct sx, sy; cbn [cond_Zopp]; try discriminate Hle; [| lia |].
    + destruct (ex ?= ey) eqn:E.
      * apply Z.compare_eq in E. subst ey.
        destruct (aligned_eq mx my ex) as [-> ->].
        destruct (Pos.compare_cont Eq mx my) eqn:C; try discriminate Hle.
        -- apply Pos.compare_eq in C. subst. lia.
        -- change (Pos.compare_cont Eq mx my) with (mx ?= my)%positive in C.
           apply Pos.compare_gt_iff in C. lia.
      * discriminate Hle.
      * apply Z.compare_gt_iff in E.
        destruct (aligned_lt my mx ey ex Vy Vx E) as [_ H]. lia.
    + destruct (ex ?= ey) eqn:E.
      * apply Z.compare_eq in E. subst ey.
        destruct (aligned_eq mx my ex) as [-> ->].
        destruct (Pos.compare_cont Eq mx my) eqn:C; try discriminate Hle.
        -- apply Pos.compare_eq in C. subst. lia.
        -- change (mx < my)%positive in C. lia.
      * apply Z.compare_lt_iff in E.
        destruct (aligned_lt mx my ex ey Vx Vy E) as [H _]. lia.
      * discriminate Hle.
Qed.

End Binary64Facts.

(** [Math.max(0, x)] and the sign of a difference. *)
Section MaxFacts.

Local Open Scope float_scope.

Lemma Prim2SF_zero : Prim2SF 0 = S754_zero false.
Proof. reflexivity. Qed.

Lemma is_nan_spec (d : float) : is_nan d = true <-> Prim2SF d = S754_nan.
Proof.
  unfold is_nan. rewrite FloatAxioms.eqb_spec. unfold SFeqb.
  destruct (Prim2SF d) as [s|s| |s m e] eqn:E.
  1,2,4: rewrite SFcompare_refl by discriminate; split; discriminate.
  split; reflexivity.
Qed.

Lemma nonpos_not_nan (d : float) :
  F64.SFnonpos (Prim2SF d) = true -> is_nan d = false.
Proof.
  intros H. destruct (is_nan d) eqn:E; [|reflexivity].
  apply is_nan_spec in E. rewrite E in H. discriminate H.
Qed.

Lemma max_zero_nonpos (d : float) :
  F64.SFnonpos (Prim2SF d) = true -> F64.max 0 d = 0.
Proof.
  intros H. unfold F64.max.
  change (is_nan 0) with false. cbv iota.
  rewrite (nonpos_not_nan d H).
  replace (0 <? d) with false.
  - destruct (d <? 0); reflexivity.
  - rewrite FloatAxioms.ltb_spec, Prim2SF_zero. unfold SFltb.
    destruct (Prim2SF d) as [s|[]| |[] m e]; try discriminate H; reflexivity.
Qed.

Lemma max_zero_not_negative_f (d : float) : (F64.max 0 d <? 0) = false.
Proof.
  unfold F64.max. change (is_nan 0) with false. cbv iota.
  destruct (is_nan d) eqn:En.
  - apply is_nan_spec in En. rewrite FloatAxioms.ltb_spec, En. reflexivity.
  - destruct (0 <? d) eqn:E.
    + rewrite FloatAxioms.ltb_spec, Prim2SF_zero in *. unfold SFltb in *.
      destruct (Prim2SF d) as [s|[]| |[] m e]; try discriminate E; reflexivity.
    + assert (Z : (0 <? 0) = false) by reflexivity.
      destruct (d <? 0); [exact Z|]. exact Z.
Qed.

Lemma sub_nonpos (a b : float) :
  (a <=? b) = true -> (is_infinity a && (a =? b)) = false ->
  F64.SFnonpos (Prim2SF (a - b)) = true.
Proof.
  intros Hle Hinf. rewrite FloatAxioms.leb_spec in Hle. rewrite FloatAxioms.sub_spec.
  apply SFsub_nonpos; try apply Prim2SF_valid; [exact Hle|].
  intros s Ea Eb. unfold is_infinity in Hinf.
  rewrite !FloatAxioms.eqb_spec, FloatAxioms.abs_spec, Ea, Eb in Hinf.
  change (Prim2SF infinity) with (S754_infinity false) in Hinf.
  now destruct s.
Qed.

End MaxFacts.

(** NaN is the one number that is not equal to itself. *)
Lemma nan_sub_same_infinity (a b : float) :
  (is_infinity a && (a =? b))%float = true -> is_nan (a - b)%float = true.
Proof.
  intros H. apply andb_true_iff in H. destruct H as [Hi He].
  apply is_nan_spec. rewrite FloatAxioms.sub_spec.
  unfold is_infinity in Hi.
  rewrite FloatAxioms.eqb_spec, FloatAxioms.abs_spec in Hi.
  rewrite FloatAxioms.eqb_spec in He.
  change (Prim2SF infinity) with (S754_infinity false) in Hi.
  unfold SFeqb in Hi, He.
  destruct (Prim2SF a) as [sa|sa| |sa ma ea]; cbn in Hi;
    try discriminate Hi.
  destruct sa, (Prim2SF b) as [[]|[]| |[] mb eb]; cbn in He;
    try discriminate He; reflexivity.
Qed.

Lemma max_zero_nan (d : float) :
  is_nan d = true -> is_nan (F64.max 0 d) = true.
Proof.
  intros H. unfold F64.max. change (is_nan 0) with false. cbv iota.
  now rewrite H.
Qed.

(** Differences above zero. *)
Section Positive.

Local Open Scope Z_scope.

Lemma shr_1_pow2 (k : Z) (mrs : shr_record) :
  1 <= k -> 2 ^ k <= shr_m mrs -> 2 ^ (k - 1) <= shr_m (shr_1 mrs).
Proof.
  intros Hk H.
  assert (P : 0 < 2 ^ (k - 1)) by (apply Z.pow_pos_nonneg; lia).
  replace k with (Z.succ (k - 1)) in H by lia.
  rewrite Z.pow_succ_r in H by lia.
  destruct mrs as [m r s]. cbn [shr_m] in *.
  destruct m as [|[p|p|]|p]; try lia; cbn [shr_1 shr_m]; lia.
Qed.

Lemma iter_shr_1_pow2 (p : positive) (k : Z) (mrs : shr_record) :
  Zpos p <= k -> 2 ^ k <= shr_m mrs ->
  2 ^ (k - Zpos p) <= shr_m (SpecFloat.iter_pos shr_1 p mrs).
Proof.
  revert k mrs. induction p as [p IH|p IH|]; intros k mrs Hk H;
    cbn [iter_pos].
  - replace (k - Zpos p~1) with (k - 1 - Zpos p - Zpos p) by lia.
    apply IH; [lia|]. apply IH; [lia|]. apply shr_1_pow2; [lia | exact H].
  - replace (k - Zpos p~0) with (k - Zpos p - Zpos p) by lia.
    apply IH; [lia|]. apply IH; [lia | exact H].
  - apply shr_1_pow2; [lia | exact H].
Qed.

(** Shifting a mantissa to its place in the format keeps one bit of it at
    least, as long as the exponent is one of the format. *)
Lemma shr_fexp_pos (m : positive) (e : Z) (l : location) :
  -1074 <= e ->
  1 <= shr_m (fst (shr_fexp prec emax (Zpos m) e l)) /\
  -1074 <= snd (shr_fexp prec emax (Zpos m) e l).
Proof.
  intros He. unfold shr_fexp, shr, fexp, SpecFloat.emin, prec, emax.
  cbn [Zdigits2]. rewrite digits2_pos_size.
  assert (H0 : shr_m (shr_record_of_loc (Zpos m) l) = Zpos m)
    by (destruct l as [|[]]; reflexivity).
  destruct (Z.max (Zpos (Pos.size m) + e - 53) (3 - 1024 - 53) - e)
    as [|p|p] eqn:E; cbn [fst snd]; try (rewrite H0; lia).
  pose proof (size_bounds m) as [B _]. rewrite <- H0 in B.
  assert (Hp : Zpos p <= Zpos (Pos.size m) - 1) by lia.
  pose proof (iter_shr_1_pow2 p _ _ Hp B) as H.
  assert (P : 0 < 2 ^ (Zpos (Pos.size m) - 1 - Zpos p))
    by (apply Z.pow_pos_nonneg; lia).
  lia.
Qed.

Lemma round_nearest_even_ge (m : Z) (l : location) :
  m <= round_nearest_even m l.
Proof.
  destruct l as [|[]]; cbn [round_nearest_even];
    try destruct (Z.even m); lia.
Qed.

(** Rounding keeps a positive number positive. *)
Lemma binary_round_aux_pos (m : positive) (e : Z) (l : location) :
  -1074 <= e -> F64.SFpos (binary_round_aux prec emax false (Zpos m) e l) = true.
Proof.
  intros He. unfold binary_round_aux.
  destruct (shr_fexp_pos m e l He) as [H1 E1].
  destruct (shr_fexp prec emax (Zpos m) e l) as [mrs' e'].
  cbn [fst snd] in H1, E1.
  pose proof (round_nearest_even_ge (shr_m mrs') (loc_of_shr_record mrs'))
    as Hr.
  destruct (round_nearest_even (shr_m mrs') (loc_of_shr_record mrs'))
    as [|q|q]; try lia.
  destruct (shr_fexp_pos q e' loc_Exact E1) as [H2 _].
  destruct (shr_fexp prec emax (Zpos q) e' loc_Exact) as [mrs'' e''].
  cbn [fst] in H2.
  destruct (shr_m mrs'') as [|p|p]; try lia.
  destruct (e'' <=? emax - prec); reflexivity.
Qed.

Lemma binary_normalize_pos (z e : Z) :
  0 < z -> -1074 <= e -> F64.SFpos (binary_normalize prec emax z e false) = true.
Proof.
  intros H He. destruct z as [|p|p]; try lia.
  unfold binary_normalize, binary_round.
  destruct (shl_align p e _) as [mz ez] eqn:E.
  apply binary_round_aux_pos.
  unfold shl_align in E.
  destruct (_ - e) as [|d|d] in E; inversion E; subst; try exact He.
  unfold fexp, SpecFloat.emin, prec, emax. lia.
Qed.

(** [a - b] is above zero when [b < a]. *)
Lemma SFsub_pos (x y : spec_float) :
  valid_binary x = true -> valid_binary y = true ->
  SFltb y x = true -> F64.SFpos (SFsub prec emax x y) = true.
Proof.
  intros Vx Vy Hlt. unfold SFltb in Hlt.
  destruct x as [sx|sx| |sx mx ex], y as [sy|sy| |sy my ey];
    cbn [SFcompare] in Hlt; cbn [SFsub F64.SFpos]; try discriminate Hlt;
    try (now destruct sx, sy); try (now destruct sx); try (now destruct sy).
  cbn [SpecFloat.valid_binary] in Vx, Vy.
  destruct (bounded_facts _ _ Vx) as (Ex & _), (bounded_facts _ _ Vy) as (Ey & _).
  apply binary_normalize_pos; [|lia].
  destruct sx, sy; cbn [cond_Zopp]; try discriminate Hlt; [| lia |].
  - destruct (ey ?= ex) eqn:E.
    + apply Z.compare_eq in E. subst ey.
      destruct (aligned_eq mx my ex) as [-> ->].
      destruct (Pos.compare_cont Eq my mx) eqn:C; try discriminate Hlt.
      change (Pos.compare_cont Eq my mx) with (my ?= mx)%positive in C.
      apply Pos.compare_gt_iff in C. lia.
    + discriminate Hlt.
    + apply Z.compare_gt_iff in E.
      destruct (aligned_lt mx my ex ey Vx Vy E) as [H _]. lia.
  - destruct (ey ?= ex) eqn:E.
    + apply Z.compare_eq in E. subst ey.
      destruct (aligned_eq mx my ex) as [-> ->].
      destruct (Pos.compare_cont Eq my mx) eqn:C; try discriminate Hlt.
      change (my < mx)%positive in C. lia.
    + apply Z.compare_lt_iff in E.
      destruct (aligned_lt my mx ey ex Vy Vx E) as [_ H]. lia.
    + discriminate Hlt.
Qed.

(** Of two numbers that can be compared, one is below the other or the
    other is at most the one. *)
Lemma SFleb_of_not_ltb (x y : spec_float) :
  x <> S754_nan -> y <> S754_nan -> SFltb y x = false -> SFleb x y = true.
Proof.
  unfold SFltb, SFleb.
  destruct x as [sx|sx| |sx mx ex], y as [sy|sy| |sy my ey]; intros Hx Hy;
    try congruence; cbn [SFcompare];
    try (now destruct sx, sy); try (now destruct sx); try (now destruct sy).
  rewrite (Z.compare_antisym ey ex).
  assert (A : Pos.compare_cont Eq mx my =
              CompOpp (Pos.compare_cont Eq my mx))
    by (symmetry; apply (Pos.compare_cont_antisym my mx Eq)).
  rewrite A.
  destruct sx, sy; try reflexivity; try discriminate;
    destruct (ey ?= ex); cbn [CompOpp]; try reflexivity; try discriminate;
    destruct (Pos.compare_cont Eq my mx); cbn [CompOpp];
    try reflexivity; discriminate.
Qed.

End Positive.

(** The sign of [Math.max(0, a - b)]. *)
Section GapFacts.

Local Open Scope float_scope.

Lemma sub_pos (a b : float) :
  (b <? a) = true -> F64.SFpos (Prim2SF (a - b)) = true.
Proof.
  intros H. rewrite FloatAxioms.ltb_spec in H. rewrite FloatAxioms.sub_spec.
  apply SFsub_pos; try apply Prim2SF_valid. exact H.
Qed.

Lemma max_zero_pos (d : float) :
  F64.SFpos (Prim2SF d) = true -> (0 <? d) = true /\ F64.max 0 d = d.
Proof.
  intros H.
  assert (Hlt : (0 <? d) = true).
  { rewrite FloatAxioms.ltb_spec, Prim2SF_zero. unfold SFltb.
    destruct (Prim2SF d) as [s|[]| |[] m e]; try discriminate H; reflexivity. }
  split; [exact Hlt|].
  unfold F64.max. change (is_nan 0) with false. cbv iota.
  replace (is_nan d) with false.
  - now rewrite Hlt.
  - symmetry. destruct (is_nan d) eqn:E; [|reflexivity].
    apply is_nan_spec in E. rewrite E in H. discriminate H.
Qed.

Lemma sub_not_pos (a b : float) :
  (b <? a) = false ->
  is_nan (a - b) = true \/ F64.SFnonpos (Prim2SF (a - b)) = true.
Proof.
  intros H.
  destruct (is_nan a) eqn:Ea.
  { left. apply is_nan_spec. apply is_nan_spec in Ea.
    rewrite FloatAxioms.sub_spec, Ea. reflexivity. }
  destruct (is_nan b) eqn:Eb.
  { left. apply is_nan_spec. apply is_nan_spec in Eb.
    rewrite FloatAxioms.sub_spec, Eb. now destruct (Prim2SF a). }
  assert (Hle : (a <=? b) = true).
  { rewrite FloatAxioms.leb_spec. rewrite FloatAxioms.ltb_spec in H.
    apply SFleb_of_not_ltb; [| |exact H]; intros E.
    - apply is_nan_spec in E. congruence.
    - apply is_nan_spec in E. congruence. }
  destruct (is_infinity a && (a =? b)) eqn:Ei.
  - left. now apply nan_sub_same_infinity.
  - right. now apply sub_nonpos.
Qed.

End GapFacts.

Lemma nan_not_above_zero (d : float) :
  is_nan d = true -> (0 <? d)%float = false.
Proof.
  intros H. apply is_nan_spec in H.
  rewrite FloatAxioms.ltb_spec, H. reflexivity.
Qed.

(** A number that fails the test [|x| < 0.0001] is not zero. *)
Lemma outside_band_nonzero (x : float) :
  (PrimFloat.abs x <? 0.0001)%float = false -> (x =? 0)%float = false.
Proof.
  intros H. destruct (x =? 0)%float eqn:E; [|reflexivity].
  rewrite FloatAxioms.ltb_spec, FloatAxioms.abs_spec in H.
  rewrite FloatAxioms.eqb_spec, Prim2SF_zero in E. unfold SFeqb in E.
  destruct (Prim2SF x) as [s|s| |s m e]; cbn in E; try discriminate E.
  - vm_compute in H. discriminate H.
  - destruct s; discriminate E.
  - destruct s; discriminate E.
Qed.

(** A finite number that is not zero, divided by itself, is exactly 1. *)
Section DivFacts.

Local Open Scope Z_scope.

Lemma SFdiv_same (s : bool) (m : positive) (e : Z) :
  SFdiv prec emax (S754_finite s m e) (S754_finite s m e) =
  S754_finite false 4503599627370496 (-52).
Proof.
  cbn [SFdiv]. unfold SFdiv_core_binary.
  replace (xorb s s) with false by (now destruct s).
  replace (Zdigits2 (Zpos m) + e - (Zdigits2 (Zpos m) + e)) with 0 by lia.
  replace (e - e) with 0 by lia.
  change (Z.min (fexp prec emax 0) 0) with (-53).
  change (0 - -53) with 53.
  cbv iota.
  rewrite Z.shiftl_mul_pow2 by lia.
  assert (E : Z.div_eucl (Zpos m * 2 ^ 53) (Zpos m) = (2 ^ 53, 0)).
  { transitivity ((Zpos m * 2 ^ 53) / Zpos m, (Zpos m * 2 ^ 53) mod Zpos m).
    - unfold Z.div, Z.modulo.
      now destruct (Z.div_eucl (Zpos m * 2 ^ 53) (Zpos m)).
    - rewrite (Z.mul_comm (Zpos m)), Z.div_mul, Z.mod_mul by lia.
      reflexivity. }
  rewrite E. unfold new_location.
  destruct (IntDef.Z.even (Zpos m)); reflexivity.
Qed.

End DivFacts.

Section DivFloat.
Local Open Scope float_scope.

Lemma div_same (x : float) :
  is_finite x = true -> (x =? 0) = false -> x / x = 1.
Proof.
  intros Hf Hz. apply Prim2SF_inj. rewrite FloatAxioms.div_spec.
  unfold is_finite, is_nan, is_infinity in Hf.
  rewrite !FloatAxioms.eqb_spec, FloatAxioms.abs_spec in Hf.
  rewrite FloatAxioms.eqb_spec in Hz.
  change (Prim2SF 0) with (S754_zero false) in Hz.
  change (Prim2SF infinity) with (S754_infinity false) in Hf.
  unfold SFeqb in Hf, Hz.
  destruct (Prim2SF x) as [s|s| |s m e]; cbn in Hf, Hz;
    try discriminate.
  - destruct s; discriminate.
  - unfold SF64div. rewrite SFdiv_same. reflexivity.
Qed.

End DivFloat.

(* ------------------------------------------------------------------ *)
(** ** Horizons, gap and projected savings *)

Local Open Scope num_scope.

(** C3 as stated fails on amounts that overflow.  With expenses of 2^1023
    at a lifestyle factor of 2 and savings of 1.7e308, a year before
    retirement, the corpus and the projected savings are both Infinity:
    [projectedExistingSavings >= requiredCorpus] holds, and the gap is
    [Math.max(0, Infinity - Infinity)], which is NaN and not zero.
    [Math.pow] is called at the exponents 1 and -1 only. *)
Lemma gap_nan_at_overflow :
  let r := F64.calculateRetirementMetrics F64.Math_pow F64.huge_amounts in
  F64.Types.requiredCorpus r = infinity /\
  F64.Types.projectedExistingSavings r = infinity /\
  (F64.Types.requiredCorpus r <=? F64.Types.projectedExistingSavings r)%float
    = true /\
  is_nan (F64.Types.gap r) = true /\
  (F64.Types.gap r =? 0)%float = false.
Proof.
  cbn zeta. repeat split; vm_compute; reflexivity.
Qed.

(** C3, amended.  For every input record the result has
    [yearsToRetirement = max(0, retirementAge - currentAge)],
    [yearsInRetirement = max(0, lifeExpectancy - retirementAge)] and
    [gap = max(0, requiredCorpus - projectedExistingSavings)]; the gap is
    never negative; whenever [projectedExistingSavings >= requiredCorpus]
    it is zero, unless the two amounts are the same infinity, in which
    case it is NaN.  The statement is about the binary64 numbers of the
    program, for any [Math.pow]. *)
Theorem horizons_and_gap
  (pow : float -> Z -> float) (s : F64.Types.CalculatorState) :
  let r := F64.calculateRetirementMetrics pow s in
  let corpus := F64.Types.requiredCorpus r in
  let savings := F64.Types.projectedExistingSavings r in
  F64.Types.yearsToRetirement r =
    Z.max 0 (F64.Types.retirementAge s - F64.Types.currentAge s) /\
  F64.Types.yearsInRetirement r =
    Z.max 0 (F64.Types.lifeExpectancy s - F64.Types.retirementAge s) /\
  F64.Types.gap r = F64.max 0%float (corpus - savings)%float /\
  (F64.Types.gap r <? 0)%float = false /\
  ((corpus <=? savings)%float = true ->
   (is_infinity corpus && (corpus =? savings))%float = false ->
   F64.Types.gap r = 0%float) /\
  ((is_infinity corpus && (corpus =? savings))%float = true ->
   is_nan (F64.Types.gap r) = true).
Proof.
  cbn zeta. cbn [F64.calculateRetirementMetrics F64.Types.yearsToRetirement
    F64.Types.yearsInRetirement F64.Types.gap F64.Types.requiredCorpus
    F64.Types.projectedExistingSavings].
  unfold F64.gap.
  split; [reflexivity|]. split; [reflexivity|]. split; [reflexivity|].
  split; [apply max_zero_not_negative_f|]. split.
  - intros Hle Hinf. apply max_zero_nonpos. now apply sub_nonpos.
  - intros Hinf. apply max_zero_nan. now apply nan_sub_same_infinity.
Qed.

(** The surplus case of C3 on a plan whose savings exceed the corpus. *)
Lemma horizons_and_gap_witness :
  let r := F64.calculateRetirementMetrics F64.Math_pow F64.well_funded in
  (F64.Types.requiredCorpus r <=? F64.Types.projectedExistingSavings r)%float
    = true /\
  F64.Types.gap r = 0%float.
Proof.
  cbn zeta.
  assert (H : (F64.Types.requiredCorpus
                 (F64.calculateRetirementMetrics F64.Math_pow F64.well_funded)
               <=? F64.Types.projectedExistingSavings
                 (F64.calculateRetirementMetrics F64.Math_pow F64.well_funded))
              %float = true)
    by (vm_compute; reflexivity).
  split; [exact H|].
  destruct (horizons_and_gap F64.Math_pow F64.well_funded)
    as (_ & _ & _ & _ & Hgap & _).
  apply (Hgap H). vm_compute. reflexivity.
Defined.



(** The rounded figures that spec section 8 quotes for the scenario. *)
Lemma scenario_rounded :
  let r := calculateRetirementMetrics scenario in
  round (Types.monthlyExpenseAtRetirement r) = Fin 179085 /\
  round (Types.projectedExistingSavings r) = Fin 12968712 /\
  round (Types.requiredCorpus r) = Fin 48888079 /\
  formatINR Intl.en_IN_currency (Types.requiredCorpus r)
    = "₹4,88,88,079"%string.
Proof.
  cbn zeta. repeat split; vm_compute; reflexivity.
Qed.

(* ------------------------------------------------------------------ *)
(** ** Currency formatting *)

(** C9 as stated fails: an infinite amount passes the [isNaN]
    test and is rendered by the platform formatter, with the infinity
    sign. *)
Lemma formatINR_infinity_not_zero :
  formatINR Intl.en_IN_currency PInf = "₹∞"%string /\
  formatINR Intl.en_IN_currency PInf <> "₹0"%string /\
  formatINR Intl.en_IN_currency NInf <> "₹0"%string.
Proof.
  repeat split; vm_compute; discriminate.
Qed.

(** C9, amended.  [formatINR] returns the zero display for NaN, whatever
    the platform formatter does; an amount that is not NaN, the two
    infinities included, is handed to the platform formatter unchanged. *)
Theorem formatINR_guard (intlFormat : num -> string) :
  formatINR intlFormat NaN = "₹0"%string /\
  formatINR intlFormat PInf = intlFormat PInf /\
  formatINR intlFormat NInf = intlFormat NInf /\
  forall q : Q, formatINR intlFormat (Fin q) = intlFormat (Fin q).
Proof.
  repeat split.
Qed.

(* ------------------------------------------------------------------ *)
(** ** The chart loop *)

Section LoopFacts.

Variable s : CalculatorState.

Let ra := retirementAge s.
Let le := lifeExpectancy s.

Lemma chart_loop_body (a : Z) (st : LoopState) :
  chart (loop_body s a st) =
  chart st ++
  [ {| age := a;
       balance := max (Fin 0) (round (currentBalance st));
       expenses := round (currentAnnualExpense st) |} ].
Proof. unfold loop_body. destruct (a <? lifeExpectancy s)%Z; reflexivity. Qed.

Lemma chart_loop_state (k : nat) :
  chart (loop_state s k) = map (pushed_point s) (seq 0 k).
Proof.
  induction k as [|k IH].
  - reflexivity.
  - rewrite seq_S, map_app. cbn [loop_state map Nat.add].
    rewrite chart_loop_body, IH. reflexivity.
Qed.

(** The loop from [year = a]: it runs its body until the years are
    exhausted or the age passes [lifeExpectancy + 5]. *)
Lemma chart_loop_from (n a : nat) :
  chart_loop s (map Z.of_nat (seq a n)) (loop_state s a) =
  loop_state s
    (a + Nat.min n (Z.to_nat (le + 5 - ra + 1 - Z.of_nat a)))%nat.
Proof.
  revert a. induction n as [|n IH]; intros a.
  - cbn. now rewrite Nat.add_0_r.
  - cbn [seq map chart_loop].
    destruct (lifeExpectancy s + 5 <? retirementAge s + Z.of_nat a)%Z eqn:E.
    + apply Z.ltb_lt in E.
      replace (Z.to_nat (le + 5 - ra + 1 - Z.of_nat a)) with 0%nat
        by (subst ra le; lia).
      now rewrite Nat.min_0_r, Nat.add_0_r.
    + apply Z.ltb_ge in E.
      change (loop_body s (retirementAge s + Z.of_nat a) (loop_state s a))
        with (loop_state s (S a)).
      rewrite IH. f_equal. subst ra le. lia.
Qed.

(** Number of points of the chart. *)
Lemma chartData_passes :
  Formatters.chartData s =
  map (pushed_point s)
    (seq 0 (Z.to_nat (Z.min (Formatters.yearsInRetirement s + 6)
                            (le + 5 - ra + 1)))).
Proof.
  unfold Formatters.chartData, loop_years.
  change (loop_init s) with (loop_state s 0).
  rewrite chart_loop_from, chart_loop_state. f_equal. f_equal.
  pose proof (yearsInRetirement_nonneg s). subst ra le. lia.
Qed.

(** The [k]-th point of the chart is the one pushed by pass [k]. *)
Lemma chartData_nth (k : nat) (p : ChartPoint) :
  nth_error (Formatters.chartData s) k = Some p ->
  p = pushed_point s k /\ (k < List.length (Formatters.chartData s))%nat.
Proof.
  intros H.
  assert (Hk : (k < List.length (Formatters.chartData s))%nat)
    by (apply nth_error_Some; congruence).
  split; [|exact Hk].
  rewrite chartData_passes in H, Hk.
  rewrite length_map, length_seq in Hk.
  rewrite (nth_error_nth' _ (pushed_point s 0)) in H
    by (now rewrite length_map, length_seq).
  rewrite map_nth, seq_nth in H by exact Hk.
  now injection H as <-.
Qed.

(** What a pass does to the two variables. *)
Lemma loop_state_live (k : nat) :
  (ra + Z.of_nat k < le)%Z ->
  currentBalance (loop_state s (S k)) =
    currentBalance (loop_state s k) +
    currentBalance (loop_state s k) * roiRate s -
    currentAnnualExpense (loop_state s k) /\
  currentAnnualExpense (loop_state s (S k)) =
    currentAnnualExpense (loop_state s k) * (Fin 1 + inflationRate s).
Proof.
  intros H. cbn [loop_state]. unfold loop_body.
  replace (retirementAge s + Z.of_nat k <? lifeExpectancy s)%Z with true
    by (symmetry; apply Z.ltb_lt; exact H).
  split; reflexivity.
Qed.

Lemma loop_state_past (k : nat) :
  (le <= ra + Z.of_nat k)%Z ->
  currentBalance (loop_state s (S k)) = Fin 0 /\
  currentAnnualExpense (loop_state s (S k)) =
    currentAnnualExpense (loop_state s k).
Proof.
  intros H. cbn [loop_state]. unfold loop_body.
  replace (retirementAge s + Z.of_nat k <? lifeExpectancy s)%Z with false
    by (symmetry; apply Z.ltb_ge; exact H).
  split; reflexivity.
Qed.

(** From the horizon on, the expense no longer changes. *)
Lemma expense_frozen (j d : nat) :
  (le <= ra + Z.of_nat j)%Z ->
  currentAnnualExpense (loop_state s (j + d)) =
  currentAnnualExpense (loop_state s j).
Proof.
  intros H. induction d as [|d IH].
  - now rewrite Nat.add_0_r.
  - rewrite Nat.add_succ_r.
    destruct (loop_state_past (j + d)) as [_ ->]; [lia | exact IH].
Qed.

(** After a pass at or past the horizon, the balance is zero. *)
Lemma balance_after_horizon (j k : nat) :
  (le <= ra + Z.of_nat j)%Z -> (j < k)%nat ->
  currentBalance (loop_state s k) = Fin 0.
Proof.
  intros H Hjk. destruct k as [|k]; [lia|].
  apply loop_state_past. lia.
Qed.

End LoopFacts.

(** C5 as stated fails when retirement comes more than six
    years after the life expectancy: the chart is empty, so that it has no
    first point, while the stated number of points is negative. *)
Lemma chart_length_late_retirement :
  let r := calculateRetirementMetrics late_retirement in
  Types.chartData r = [] /\
  Z.of_nat (List.length (Types.chartData r)) <>
  Z.min (Types.yearsInRetirement r + 6)
        (lifeExpectancy late_retirement + 5 -
         retirementAge late_retirement + 1).
Proof.
  cbn zeta. split; [reflexivity | vm_compute; discriminate].
Qed.

(** C5, amended.  For every input record whose [retirementAge] is at most
    [lifeExpectancy + 5], the chart has exactly
    [min(yearsInRetirement + 6, lifeExpectancy + 5 - retirementAge + 1)]
    points and its first point has age [retirementAge]; otherwise the
    chart is empty.  In both cases the ages of the points are
    [retirementAge], [retirementAge + 1], ... in order, and none exceeds
    [lifeExpectancy + 5]. *)
Theorem chartData_shape (s : CalculatorState) :
  let r := calculateRetirementMetrics s in
  let ch := Types.chartData r in
  ((retirementAge s <= lifeExpectancy s + 5)%Z ->
   Z.of_nat (List.length ch) =
     Z.min (Types.yearsInRetirement r + 6)
           (lifeExpectancy s + 5 - retirementAge s + 1) /\
   hd_error (map age ch) = Some (retirementAge s)) /\
  ((lifeExpectancy s + 5 < retirementAge s)%Z -> ch = []) /\
  map age ch =
    map (fun k => (retirementAge s + Z.of_nat k)%Z) (seq 0 (List.length ch)) /\
  Forall (fun p => (age p <= lifeExpectancy s + 5)%Z) ch.
Proof.
  cbn zeta. cbn [calculateRetirementMetrics Types.chartData
    Types.yearsInRetirement].
  rewrite chartData_passes.
  pose proof (yearsInRetirement_nonneg s) as Hy.
  set (m := Z.to_nat _).
  rewrite length_map, length_seq, map_map.
  repeat split.
  - subst m. lia.
  - destruct m as [|m'] eqn:E; [lia|].
    cbn. now rewrite Z.add_0_r.
  - intros H. replace m with 0%nat by lia. reflexivity.
  - apply Forall_forall. intros p Hp.
    apply in_map_iff in Hp. destruct Hp as (k & <- & Hk).
    apply in_seq in Hk. cbn. lia.
Qed.

(** C5 amended, on the scenario and on a late retirement. *)
Lemma chartData_shape_witness :
  (Z.of_nat (List.length (Types.chartData (calculateRetirementMetrics scenario)))
     = 36%Z /\
   hd_error (map age (Types.chartData (calculateRetirementMetrics scenario)))
     = Some 55%Z) /\
  Types.chartData (calculateRetirementMetrics late_retirement) = [].
Proof.
  split.
  - destruct (chartData_shape scenario) as (H & _).
    apply H. vm_compute. discriminate.
  - destruct (chartData_shape late_retirement) as (_ & H & _).
    apply H. reflexivity.
Defined.

(** C10.  The chart shows the rounded value of the running expense.  Between
    two consecutive points the running expense is multiplied by
    [1 + inflationRate] when the earlier point has an age below
    [lifeExpectancy], and is left unchanged otherwise; so all the points
    whose age is [lifeExpectancy] or more carry the same [expenses]. *)
Theorem chart_expenses_inflation (s : CalculatorState) :
  let ch := Types.chartData (calculateRetirementMetrics s) in
  let running k := currentAnnualExpense (loop_state s k) in
  (forall k p, nth_error ch k = Some p -> expenses p = round (running k)) /\
  (forall k, (age (pushed_point s k) < lifeExpectancy s)%Z ->
             running (S k) = running k * (Fin 1 + inflationRate s)) /\
  (forall k, (lifeExpectancy s <= age (pushed_point s k))%Z ->
             running (S k) = running k) /\
  (forall p q, In p ch -> In q ch ->
               (lifeExpectancy s <= age p)%Z ->
               (lifeExpectancy s <= age q)%Z ->
               expenses p = expenses q).
Proof.
  cbn zeta. cbn [calculateRetirementMetrics Types.chartData].
  split; [|split; [|split]].
  - intros k p H. apply chartData_nth in H. destruct H as [-> _].
    reflexivity.
  - intros k H. now apply loop_state_live.
  - intros k H. now apply loop_state_past.
  - assert (aux : forall j k, (j <= k)%nat ->
              (lifeExpectancy s <= age (pushed_point s j))%Z ->
              expenses (pushed_point s j) = expenses (pushed_point s k)).
    { intros j k Hjk Hj. cbn [expenses pushed_point]. f_equal.
      replace k with (j + (k - j))%nat by lia.
      symmetry. now apply expense_frozen. }
    intros p q Hp Hq Hpa Hqa.
    apply In_nth_error in Hp, Hq.
    destruct Hp as (j & Hj), Hq as (k & Hk).
    apply chartData_nth in Hj, Hk.
    destruct Hj as [-> _], Hk as [-> _].
    destruct (Nat.le_ge_cases j k) as [L|L].
    + now apply aux.
    + symmetry. now apply aux.
Qed.

(** C10 on the scenario: the points of ages 85 and 90 show the same
    expense, the running expense of age 56 is that of age 55 inflated, and
    that of age 87 is that of age 86. *)
Lemma chart_expenses_inflation_witness :
  let ch := Types.chartData (calculateRetirementMetrics scenario) in
  let p85 := {| age := 85; balance := Fin 27845885;
                expenses := Fin 12342862 |} in
  let p90 := {| age := 90; balance := Fin 0; expenses := Fin 12342862 |} in
  (nth_error ch 30 = Some p85 /\ nth_error ch 35 = Some p90 /\
   expenses p85 = expenses p90 /\
   expenses p85 = round (currentAnnualExpense (loop_state scenario 30))) /\
  currentAnnualExpense (loop_state scenario 1) =
    currentAnnualExpense (loop_state scenario 0) *
    (Fin 1 + inflationRate scenario) /\
  currentAnnualExpense (loop_state scenario 32) =
    currentAnnualExpense (loop_state scenario 31).
Proof.
  intros ch p85 p90.
  destruct (chart_expenses_inflation scenario)
    as (Hshow & Hlive & Hpast & Hsame).
  assert (H85 : nth_error ch 30 = Some p85) by (vm_compute; reflexivity).
  assert (H90 : nth_error ch 35 = Some p90) by (vm_compute; reflexivity).
  split; [|split].
  - split; [exact H85 | split; [exact H90 | split]].
    + refine (Hsame p85 p90 (nth_error_In _ _ H85) (nth_error_In _ _ H90) _ _);
        vm_compute; discriminate.
    + exact (Hshow 30%nat p85 H85).
  - refine (Hlive 0%nat _). vm_compute. reflexivity.
  - refine (Hpast 31%nat _). vm_compute. discriminate.
Defined.

(* ------------------------------------------------------------------ *)
(** ** Finite values along the loop *)

Section LoopInvariants.

Variable s : CalculatorState.

Lemma expense_finite (k : nat) :
  isFinite (currentAnnualExpense (loop_state s k)) = true.
Proof.
  induction k as [|k IH].
  - exact (equiv_Fin_finite _ _ (annualExpenseAtRetirement_val s)).
  - cbn [loop_state]. unfold loop_body.
    destruct (retirementAge s + Z.of_nat k <? lifeExpectancy s)%Z;
      cbn [currentAnnualExpense]; [|exact IH].
    apply isFinite_Fin in IH. destruct IH as (e & ->).
    rewrite one_plus_inflationRate_val, mul_fin. reflexivity.
Qed.

Lemma balance_finite (k : nat) :
  ~ (postRetirementROI s == -1)%Q ->
  isFinite (currentBalance (loop_state s k)) = true.
Proof.
  intros Hr. induction k as [|k IH].
  - now apply requiredCorpus_finite.
  - cbn [loop_state]. unfold loop_body.
    destruct (retirementAge s + Z.of_nat k <? lifeExpectancy s)%Z;
      cbn [currentBalance]; [|reflexivity].
    pose proof (expense_finite k) as He.
    apply isFinite_Fin in IH, He.
    destruct IH as (b & ->), He as (e & ->).
    unfold roiRate. rewrite mul_fin. unfold fin.
    rewrite add_fin. unfold fin. rewrite sub_fin. reflexivity.
Qed.

(** The balance after a pass below the horizon, in the form of the
    recurrence. *)
Lemma balance_recurrence (k : nat) :
  (retirementAge s + Z.of_nat k < lifeExpectancy s)%Z ->
  currentBalance (loop_state s (S k)) =
  currentBalance (loop_state s k) * (Fin 1 + roiRate s) -
  currentAnnualExpense (loop_state s k).
Proof.
  intros H. destruct (loop_state_live s k H) as [-> _].
  unfold roiRate. f_equal. apply growth_factor.
  destruct (Qeq_dec (postRetirementROI s) (-1)) as [E|E].
  - right. right. exact E.
  - left. now apply balance_finite.
Qed.

End LoopInvariants.

(* ------------------------------------------------------------------ *)
(** ** The balance along the chart *)



(* ------------------------------------------------------------------ *)
(** ** Divisions *)




(* ------------------------------------------------------------------ *)
(** ** The corpus *)

(** C1.  For every input record, [requiredCorpus] is [0] when
    [yearsInRetirement] is zero; otherwise it is
    [annualExpenseAtRetirement * yearsInRetirement] when
    [|realRate| < 0.0001], and
    [annualExpenseAtRetirement * (1 - (1 + realRate)^(-yearsInRetirement))
    / realRate] when not, where
    [realRate = (1 + postRetirementROI) / (1 + assumedInflation/100) - 1]
    and [annualExpenseAtRetirement = 12 * currentMonthlyExpenses *
    lifestyleFactor * (1 + assumedInflation/100)^yearsToRetirement].  The
    statement is about the binary64 numbers of the program, for any
    [Math.pow]: the guard is tested on the real rate as rounded, and the
    products and the quotient are taken in the order the program takes
    them. *)
Theorem requiredCorpus_case_split
  (pow : float -> Z -> float) (s : F64.Types.CalculatorState) :
  let r := F64.calculateRetirementMetrics pow s in
  let yearsToRetirement := F64.Types.yearsToRetirement r in
  let yearsInRetirement := F64.Types.yearsInRetirement r in
  let inflation := (F64.Types.assumedInflation s / 100)%float in
  let realRate :=
    ((1 + F64.Types.postRetirementROI s) / (1 + inflation) - 1)%float in
  let annualExpenseAtRetirement :=
    (F64.Types.currentMonthlyExpenses s * F64.Types.lifestyleFactor s *
     pow (1 + inflation) yearsToRetirement * 12)%float in
  F64.Types.requiredCorpus r =
    if (yearsInRetirement =? 0)%Z then 0%float
    else if (PrimFloat.abs realRate <? 0.0001)%float then
      (annualExpenseAtRetirement * F64.ofZ yearsInRetirement)%float
    else
      (annualExpenseAtRetirement *
       ((1 - pow (1 + realRate) (- yearsInRetirement)%Z) / realRate))%float.
Proof.
  cbn zeta. cbn [F64.calculateRetirementMetrics F64.Types.requiredCorpus
    F64.Types.yearsToRetirement F64.Types.yearsInRetirement].
  unfold F64.requiredCorpus.
  assert (Hy : (0 <= F64.yearsInRetirement s)%Z)
    by (unfold F64.yearsInRetirement; lia).
  destruct (0 <? F64.yearsInRetirement s)%Z eqn:E.
  - apply Z.ltb_lt in E.
    replace (F64.yearsInRetirement s =? 0)%Z with false
      by (symmetry; apply Z.eqb_neq; lia).
    reflexivity.
  - apply Z.ltb_ge in E.
    replace (F64.yearsInRetirement s =? 0)%Z with true
      by (symmetry; apply Z.eqb_eq; lia).
    reflexivity.
Qed.

(** The guard at work on the rounded real rate.  With no inflation and a
    return of 0.0001 the real rate, 0.0001 before rounding, comes out of
    the division and the subtraction as 9.9999999999988987e-05: the test
    [|realRate| < 0.0001] holds and the corpus is the straight line,
    [100000 * 12 * 30]. *)
Lemma guard_on_rounded_rate :
  let r := F64.calculateRetirementMetrics F64.Math_pow F64.edge_of_band in
  F64.realRate F64.edge_of_band = 9.9999999999988987e-05%float /\
  (PrimFloat.abs (F64.realRate F64.edge_of_band) <? 0.0001)%float = true /\
  F64.Types.requiredCorpus r = 36000000%float /\
  F64.Types.requiredCorpus r =
    (F64.annualExpenseAtRetirement F64.Math_pow F64.edge_of_band * 30)%float.
Proof.
  cbn zeta. repeat split; vm_compute; reflexivity.
Qed.

(** X20.  When the return equals the inflation,
    [postRetirementROI = assumedInflation / 100] as binary64 numbers, and
    [1 + postRetirementROI] is finite and not zero, the quotient of the
    real rate is exactly 1 and the real rate exactly 0; over a horizon
    that is not zero the corpus is then the straight line
    [annualExpenseAtRetirement * yearsInRetirement].  For any [Math.pow]. *)
Theorem level_rates_binary64
  (pow : float -> Z -> float) (s : F64.Types.CalculatorState) :
  F64.Types.postRetirementROI s = (F64.Types.assumedInflation s / 100)%float ->
  is_finite (1 + F64.Types.postRetirementROI s)%float = true ->
  (1 + F64.Types.postRetirementROI s =? 0)%float = false ->
  F64.realRate s = 0%float /\
  ((0 < F64.yearsInRetirement s)%Z ->
   F64.Types.requiredCorpus (F64.calculateRetirementMetrics pow s) =
   (F64.annualExpenseAtRetirement pow s *
    F64.ofZ (F64.yearsInRetirement s))%float).
Proof.
  intros Hr Hf Hz.
  assert (H0 : F64.realRate s = 0%float).
  { unfold F64.realRate, F64.roiRate, F64.inflationRate.
    rewrite <- Hr, (div_same _ Hf Hz). reflexivity. }
  split; [exact H0|].
  intros Hy. cbn [F64.calculateRetirementMetrics F64.Types.requiredCorpus].
  unfold F64.requiredCorpus.
  replace (0 <? F64.yearsInRetirement s)%Z with true
    by (symmetry; now apply Z.ltb_lt).
  rewrite H0. reflexivity.
Qed.

(** X20 on the scenario with a return of 6 percent. *)
Lemma level_rates_binary64_witness :
  F64.realRate F64.level_rates = 0%float /\
  F64.Types.requiredCorpus
    (F64.calculateRetirementMetrics F64.Math_pow F64.level_rates) =
  (F64.annualExpenseAtRetirement F64.Math_pow F64.level_rates * 30)%float.
Proof.
  destruct (level_rates_binary64 F64.Math_pow F64.level_rates) as [H0 Hc].
  - vm_compute. reflexivity.
  - vm_compute. reflexivity.
  - vm_compute. reflexivity.
  - split; [exact H0|]. apply Hc. reflexivity.
Defined.

(** When the return equals the inflation the real rate is zero and the
    corpus is the straight line [annualExpenseAtRetirement *
    yearsInRetirement] (spec section 8, near-zero real rate). *)
Lemma requiredCorpus_straight_line (s : CalculatorState) :
  ~ (assumedInflation s == -100)%Q ->
  (postRetirementROI s == assumedInflation s / 100)%Q ->
  (0 < Formatters.yearsInRetirement s)%Z ->
  realRate s ~= Fin 0 /\
  Formatters.requiredCorpus s =
    annualExpenseAtRetirement s * ofZ (Formatters.yearsInRetirement s).
Proof.
  intros Hi Hr Hy.
  assert (H0 : realRate s ~= Fin 0).
  { rewrite (realRate_regular s Hi). cbn [equiv]. rewrite Hr.
    field. intros E. apply Hi. lra. }
  split; [exact H0|].
  unfold Formatters.requiredCorpus.
  replace (0 <? Formatters.yearsInRetirement s)%Z with true
    by (symmetry; now apply Z.ltb_lt).
  now rewrite H0.
Qed.

(* ------------------------------------------------------------------ *)
(** ** The annuity factor as a sum of discount factors *)

Section AnnuityFacts.

Local Open Scope Q_scope.

#[global] Instance geom_proper : Proper (Qeq ==> eq ==> Qeq) geom.
Proof.
  intros t t' Ht k k' <-. induction k as [|k IH]; cbn [geom].
  - reflexivity.
  - now rewrite IH, Ht.
Qed.

Lemma geom_nonneg (t : Q) (k : nat) : 0 <= t -> 0 <= geom t k.
Proof.
  intros Ht. induction k as [|k IH]; cbn [geom].
  - apply Qle_refl.
  - apply Qmult_le_0_compat; [exact Ht | lra].
Qed.

Lemma geom_mono (t u : Q) (k : nat) :
  0 <= t -> t <= u -> geom t k <= geom u k.
Proof.
  intros Ht Htu. induction k as [|k IH]; cbn [geom].
  - apply Qle_refl.
  - pose proof (geom_nonneg t k Ht).
    apply Qmult_le_compat_nonneg; split; lra.
Qed.

Lemma geom_one (k : nat) : geom 1 k == inject_Z (Z.of_nat k).
Proof.
  induction k as [|k IH]; cbn [geom].
  - reflexivity.
  - rewrite IH, Nat2Z.inj_succ. unfold Z.succ. rewrite inject_Z_plus. ring.
Qed.

Lemma Qpower_succ (q : Q) (k : nat) :
  q ^ Z.of_nat (S k) == q * q ^ Z.of_nat k.
Proof.
  rewrite Nat2Z.inj_succ. unfold Z.succ.
  rewrite Qpower_plus' by lia. rewrite Qpower_1_r. ring.
Qed.

Lemma Qpower_base_mono (u v : Q) (k : nat) :
  0 <= u -> u <= v -> u ^ Z.of_nat k <= v ^ Z.of_nat k.
Proof.
  intros Hu Huv. induction k as [|k IH].
  - apply Qle_refl.
  - rewrite !Qpower_succ.
    apply Qmult_le_compat_nonneg; split; try assumption.
    apply Qpower_0_le. exact Hu.
Qed.

(** The closed form of the annuity is the sum of the discount factors. *)
Lemma annuity_geom (r : Q) (k : nat) :
  ~ r == 0 -> ~ 1 + r == 0 ->
  (1 - (1 + r) ^ (- Z.of_nat k)) / r == geom (/ (1 + r)) k.
Proof.
  intros Hr H1. induction k as [|k IH]; cbn [geom].
  - cbn. field. exact Hr.
  - rewrite <- IH.
    assert (E : (1 + r) ^ (- Z.of_nat (S k)) ==
                (1 + r) ^ (- Z.of_nat k) * / (1 + r)).
    { rewrite !Qpower_opp, Qpower_succ, Qinv_mult_distr. ring. }
    rewrite E. field. split; assumption.
Qed.

Lemma Qinv_le_contravar (x y : Q) : 0 < x -> x <= y -> / y <= / x.
Proof.
  intros Hx Hxy. apply Qle_shift_inv_r; [lra|].
  assert (E : 1 == / x * x) by (field; lra).
  rewrite E. apply Qmult_le_l; [|exact Hxy].
  apply Qinv_lt_0_compat. exact Hx.
Qed.

Lemma guard_spec (r : Q) :
  Qltb (Qabs r) (1 # 10000) = true <-> - (1 # 10000) < r < 1 # 10000.
Proof.
  rewrite Qltb_lt. apply Qabs_Qlt_condition.
Qed.

(** The factor is non-negative and does not increase with the rate, the
    guarded band around zero included. *)
Lemma annuityFactorQ_antitone (r1 r2 : Q) (k : nat) :
  -1 < r2 -> r2 <= r1 ->
  0 <= annuityFactorQ r1 (Z.of_nat k) /\
  annuityFactorQ r1 (Z.of_nat k) <= annuityFactorQ r2 (Z.of_nat k).
Proof.
  intros H2 H21.
  assert (Ht1 : 0 < / (1 + r1)) by (apply Qinv_lt_0_compat; lra).
  assert (Ht12 : / (1 + r1) <= / (1 + r2))
    by (apply Qinv_le_contravar; lra).
  assert (Hk : 0 <= inject_Z (Z.of_nat k)).
  { rewrite <- geom_one. apply geom_nonneg. lra. }
  unfold annuityFactorQ.
  destruct (Qltb (Qabs r1) (1 # 10000)) eqn:G1;
    destruct (Qltb (Qabs r2) (1 # 10000)) eqn:G2.
  - split; [exact Hk | apply Qle_refl].
  - split; [exact Hk|].
    apply guard_spec in G1.
    assert (L : r2 <= - (1 # 10000)).
    { destruct (Qlt_le_dec (- (1 # 10000)) r2) as [L|L]; [|exact L].
      exfalso. assert (G : Qltb (Qabs r2) (1 # 10000) = true)
        by (apply guard_spec; lra).
      congruence. }
    rewrite annuity_geom by lra. rewrite <- geom_one.
    apply geom_mono; [lra|].
    apply Qle_shift_inv_l; lra.
  - apply guard_spec in G2.
    assert (L : 1 # 10000 <= r1).
    { destruct (Qlt_le_dec r1 (1 # 10000)) as [L|L]; [|exact L].
      exfalso. assert (G : Qltb (Qabs r1) (1 # 10000) = true)
        by (apply guard_spec; lra).
      congruence. }
    rewrite annuity_geom by lra.
    split; [apply geom_nonneg; lra|].
    rewrite <- geom_one.
    apply geom_mono; [lra|].
    apply Qle_shift_inv_r; lra.
  - assert (N1 : ~ r1 == 0).
    { intros E. rewrite E in G1. discriminate G1. }
    assert (N2 : ~ r2 == 0).
    { intros E. rewrite E in G2. discriminate G2. }
    rewrite !annuity_geom by lra.
    split; [apply geom_nonneg; lra|].
    apply geom_mono; lra.
Qed.

End AnnuityFacts.

(* ------------------------------------------------------------------ *)
(** ** Monotonicity of the corpus in the inflation *)

Section Monotonicity.

Variable s : CalculatorState.
Variables a b : Q.
Hypothesis Hv : valid_input s.
Hypothesis Ha : (0 <= a)%Q.
Hypothesis Hab : (a <= b)%Q.

Local Open Scope Q_scope.

Lemma percent_mono :
  0 < 1 + a / 100 /\ 1 + a / 100 <= 1 + b / 100.
Proof.
  assert (E : forall x, x / 100 == x * (1 # 100)) by (intros x; reflexivity).
  rewrite !E. split; lra.
Qed.

Lemma requiredCorpusQ_factor (t : CalculatorState) :
  requiredCorpusQ t =
  if (0 <? Formatters.yearsInRetirement t)%Z then
    annualExpenseQ t *
    annuityFactorQ (realRateQ t) (Formatters.yearsInRetirement t)
  else 0.
Proof.
  unfold requiredCorpusQ, annuityFactorQ.
  destruct (0 <? _)%Z; [|reflexivity].
  destruct (Qltb _ _); reflexivity.
Qed.

Lemma realRateQ_antitone :
  -1 < realRateQ (with_inflation s b) /\
  realRateQ (with_inflation s b) <= realRateQ (with_inflation s a).
Proof.
  destruct Hv as (_ & _ & _ & _ & Hr).
  unfold realRateQ. cbn [with_inflation assumedInflation postRetirementROI].
  destruct percent_mono as [HX HXY].
  assert (HP : 0 < 1 + postRetirementROI s) by lra.
  split.
  - assert (0 < (1 + postRetirementROI s) / (1 + b / 100)); [|lra].
    apply Qmult_lt_0_compat; [exact HP|].
    apply Qinv_lt_0_compat. lra.
  - assert ((1 + postRetirementROI s) / (1 + b / 100) <=
            (1 + postRetirementROI s) / (1 + a / 100)); [|lra].
    apply Qmult_le_l; [exact HP|].
    now apply Qinv_le_contravar.
Qed.

Lemma annualExpenseQ_mono :
  0 <= annualExpenseQ (with_inflation s a) /\
  annualExpenseQ (with_inflation s a) <= annualExpenseQ (with_inflation s b).
Proof.
  destruct Hv as (Hc & Hl & _).
  unfold annualExpenseQ.
  cbn [with_inflation assumedInflation currentMonthlyExpenses
    lifestyleFactor].
  change (Formatters.yearsToRetirement (with_inflation s a))
    with (Formatters.yearsToRetirement s).
  change (Formatters.yearsToRetirement (with_inflation s b))
    with (Formatters.yearsToRetirement s).
  rewrite <- (Z2Nat.id _ (yearsToRetirement_nonneg s)).
  set (m := Z.to_nat _).
  destruct percent_mono as [HX' HXY].
  assert (HX : 0 <= 1 + a / 100) by lra.
  pose proof (Qpower_base_mono _ _ m HX HXY) as Hp.
  pose proof (Qpower_0_le _ (Z.of_nat m) HX) as Hp0.
  assert (Hcl : 0 < currentMonthlyExpenses s * lifestyleFactor s)
    by (apply Qmult_lt_0_compat; assumption).
  split.
  - apply Qmult_le_0_compat; [|lra].
    apply Qmult_le_0_compat; lra.
  - apply Qmult_le_compat_r; [|lra].
    apply Qmult_le_l; assumption.
Qed.

Lemma requiredCorpusQ_mono :
  requiredCorpusQ (with_inflation s a) <= requiredCorpusQ (with_inflation s b).
Proof.
  rewrite !requiredCorpusQ_factor.
  change (Formatters.yearsInRetirement (with_inflation s a))
    with (Formatters.yearsInRetirement s).
  change (Formatters.yearsInRetirement (with_inflation s b))
    with (Formatters.yearsInRetirement s).
  destruct (0 <? Formatters.yearsInRetirement s)%Z; [|apply Qle_refl].
  rewrite <- (Z2Nat.id _ (yearsInRetirement_nonneg s)).
  destruct realRateQ_antitone as [H1 H2].
  destruct (annuityFactorQ_antitone _ _
              (Z.to_nat (Formatters.yearsInRetirement s)) H1 H2) as [F0 F].
  destruct annualExpenseQ_mono as [A0 A].
  apply Qmult_le_compat_nonneg; split; assumption.
Qed.

End Monotonicity.




(* ------------------------------------------------------------------ *)
(** ** Further properties of the corpus *)

Lemma leb_of_Qle (x y : num) (p q : Q) :
  x ~= Fin p -> y ~= Fin q -> (p <= q)%Q -> (x <=? y) = true.
Proof.
  intros Hx Hy Hpq.
  destruct x as [x| | |]; cbn [equiv] in Hx; try contradiction.
  destruct y as [y| | |]; cbn [equiv] in Hy; try contradiction.
  cbn [leb ltb]. apply negb_true_iff, Qltb_ge. now rewrite Hx, Hy.
Qed.

Section ValidInputs.

Variable s : CalculatorState.
Hypothesis Hv : valid_input s.

Local Open Scope Q_scope.

Lemma valid_regular :
  ~ assumedInflation s == -100 /\ ~ postRetirementROI s == -1.
Proof. destruct Hv as (_ & _ & _ & Hi & Hr). split; lra. Qed.

Lemma valid_percent : 1 <= 1 + assumedInflation s / 100.
Proof.
  destruct Hv as (_ & _ & _ & Hi & _).
  assert (E : assumedInflation s / 100 == assumedInflation s * (1 # 100))
    by reflexivity.
  rewrite E. lra.
Qed.

Lemma valid_annualExpenseQ : 0 <= annualExpenseQ s.
Proof.
  destruct Hv as (Hc & Hl & _). pose proof valid_percent as Hp.
  unfold annualExpenseQ.
  apply Qmult_le_0_compat; [|lra].
  apply Qmult_le_0_compat.
  - apply Qlt_le_weak. now apply Qmult_lt_0_compat.
  - apply Qpower_0_le. lra.
Qed.

Lemma valid_realRateQ : -1 < realRateQ s.
Proof.
  destruct Hv as (_ & _ & _ & _ & Hr). pose proof valid_percent as Hp.
  unfold realRateQ.
  assert (0 < (1 + postRetirementROI s) / (1 + assumedInflation s / 100));
    [|lra].
  apply Qmult_lt_0_compat; [lra|]. apply Qinv_lt_0_compat. lra.
Qed.

Lemma valid_requiredCorpus :
  Formatters.requiredCorpus s ~= Fin (requiredCorpusQ s).
Proof. destruct valid_regular. now apply requiredCorpus_regular. Qed.

End ValidInputs.

Lemma geom_mono_years (t : Q) (j k : nat) :
  (0 <= t)%Q -> (j <= k)%nat -> (geom t j <= geom t k)%Q.
Proof.
  intros Ht Hjk. induction Hjk as [|k Hjk IH].
  - apply Qle_refl.
  - eapply Qle_trans; [exact IH|].
    clear IH Hjk. induction k as [|k IH]; cbn [geom].
    + pose proof (Qmult_le_0_compat t (1 + 0) Ht). lra.
    + cbn [geom] in IH. pose proof (geom_nonneg t k Ht).
      apply Qmult_le_compat_nonneg; split; lra.
Qed.

Lemma annuityFactorQ_mono_years (r : Q) (j k : nat) :
  (-1 < r)%Q -> (j <= k)%nat ->
  (0 <= annuityFactorQ r (Z.of_nat j))%Q /\
  (annuityFactorQ r (Z.of_nat j) <= annuityFactorQ r (Z.of_nat k))%Q.
Proof.
  intros Hr Hjk. unfold annuityFactorQ.
  destruct (Qltb (Qabs r) (1 # 10000)) eqn:G.
  - rewrite <- !geom_one. split.
    + apply geom_nonneg. discriminate.
    + apply geom_mono_years; [discriminate | exact Hjk].
  - assert (N : ~ (r == 0)%Q).
    { intros E. rewrite E in G. discriminate G. }
    assert (Ht : (0 <= / (1 + r))%Q)
      by (apply Qlt_le_weak, Qinv_lt_0_compat; lra).
    rewrite !annuity_geom by lra. split.
    + now apply geom_nonneg.
    + now apply geom_mono_years.
Qed.



(** Sign of the gap. *)
Lemma gap_sign (s : CalculatorState) :
  (Fin 0 <? Formatters.gap s) =
    (Formatters.projectedExistingSavings s <? Formatters.requiredCorpus s) /\
  ((Fin 0 <? Formatters.gap s) = true ->
   Formatters.gap s =
     Formatters.requiredCorpus s - Formatters.projectedExistingSavings s) /\
  ((Fin 0 <? Formatters.gap s) = false ->
   Formatters.gap s = Fin 0 \/
   (Formatters.gap s = NaN /\ Formatters.requiredCorpus s = NaN)).
Proof.
  unfold Formatters.gap.
  pose proof (projectedExistingSavings_val s) as Hp.
  destruct (Formatters.projectedExistingSavings s) as [p| | |];
    cbn [equiv] in Hp; try contradiction. clear Hp.
  destruct (Formatters.requiredCorpus s) as [c| | |].
  - rewrite sub_fin. unfold fin. cbn [max ltb].
    destruct (Qltb 0 (Qred (c - p))) eqn:E; cbn [ltb].
    + rewrite E. apply Qltb_lt in E. rewrite Qred_correct in E.
      split; [|split; [reflexivity | discriminate]].
      symmetry. apply Qltb_lt. lra.
    + apply Qltb_ge in E. rewrite Qred_correct in E.
      split; [|split; [discriminate | now left]].
      change (Qltb 0 0) with false. symmetry. apply Qltb_ge. lra.
  - cbn. split; [reflexivity | split; [reflexivity | discriminate]].
  - cbn. split; [reflexivity | split; [discriminate | now left]].
  - cbn. split; [reflexivity | split; [discriminate | now right]].
Qed.

(** X6.  For every input record, [gap > 0] exactly when
    [requiredCorpus > projectedExistingSavings], and then
    [gap = requiredCorpus - projectedExistingSavings]; otherwise [gap] is
    zero or NaN.  The statement is about the binary64 numbers of the
    program, for any [Math.pow]. *)
Theorem gap_positive_iff_shortfall
  (pow : float -> Z -> float) (s : F64.Types.CalculatorState) :
  let r := F64.calculateRetirementMetrics pow s in
  let corpus := F64.Types.requiredCorpus r in
  let savings := F64.Types.projectedExistingSavings r in
  (0 <? F64.Types.gap r)%float = (savings <? corpus)%float /\
  ((0 <? F64.Types.gap r)%float = true ->
   F64.Types.gap r = (corpus - savings)%float) /\
  ((0 <? F64.Types.gap r)%float = false ->
   F64.Types.gap r = 0%float \/ is_nan (F64.Types.gap r) = true).
Proof.
  cbn zeta. cbn [F64.calculateRetirementMetrics F64.Types.gap
    F64.Types.requiredCorpus F64.Types.projectedExistingSavings].
  unfold F64.gap.
  destruct (F64.projectedExistingSavings pow s <? F64.requiredCorpus pow s)%float
    eqn:E.
  - destruct (max_zero_pos _ (sub_pos _ _ E)) as [Hlt Hmax].
    rewrite Hmax. split; [exact Hlt|].
    split; [reflexivity | rewrite Hlt; discriminate].
  - destruct (sub_not_pos _ _ E) as [Hn|Hn].
    + apply max_zero_nan in Hn.
      split; [now apply nan_not_above_zero|].
      split; [rewrite (nan_not_above_zero _ Hn); discriminate | now right].
    + rewrite (max_zero_nonpos _ Hn).
      split; [reflexivity | split; [discriminate | now left]].
Qed.

(** X6 on the scenario (a shortfall) and on a well funded plan. *)
Lemma gap_positive_iff_shortfall_witness :
  let r := F64.calculateRetirementMetrics F64.Math_pow F64.scenario in
  let w := F64.calculateRetirementMetrics F64.Math_pow F64.well_funded in
  F64.Types.gap r =
    (F64.Types.requiredCorpus r - F64.Types.projectedExistingSavings r)%float /\
  (F64.Types.gap w = 0%float \/ is_nan (F64.Types.gap w) = true).
Proof.
  cbn zeta. split.
  - destruct (gap_positive_iff_shortfall F64.Math_pow F64.scenario)
      as (_ & H & _).
    apply H. vm_compute. reflexivity.
  - destruct (gap_positive_iff_shortfall F64.Math_pow F64.well_funded)
      as (_ & _ & H).
    apply H. vm_compute. reflexivity.
Defined.





(* ------------------------------------------------------------------ *)
(** ** The chart loop on rationals *)

Lemma trajectoryQ_val (s : CalculatorState) :
  ~ (assumedInflation s == -100)%Q -> ~ (postRetirementROI s == -1)%Q ->
  forall k,
    currentBalance (loop_state s k) ~= Fin (fst (trajectoryQ s k)) /\
    currentAnnualExpense (loop_state s k) ~= Fin (snd (trajectoryQ s k)).
Proof.
  intros Hi Hr k. induction k as [|k [IHb IHe]].
  - split.
    + now apply requiredCorpus_regular.
    + apply annualExpenseAtRetirement_val.
  - cbn [loop_state trajectoryQ]. unfold loop_body.
    destruct (trajectoryQ s k) as [b e]. cbn [fst snd] in IHb, IHe.
    destruct (retirementAge s + Z.of_nat k <? lifeExpectancy s)%Z;
      cbn [currentBalance currentAnnualExpense fst snd].
    + split.
      * rewrite IHb, IHe. unfold roiRate.
        rewrite mul_fin, fin_equiv, add_fin, fin_equiv, sub_fin.
        apply fin_equiv.
      * rewrite IHe, one_plus_inflationRate_val, mul_fin. apply fin_equiv.
    + split; [reflexivity | exact IHe].
Qed.

Section Trajectory.

Variable s : CalculatorState.
Hypothesis Hv : valid_input s.

Local Open Scope Q_scope.

Let X : Q := 1 + assumedInflation s / 100.
Let P : Q := 1 + postRetirementROI s.

Lemma rates_positive : 1 <= X /\ 1 <= P.
Proof.
  split.
  - exact (valid_percent s Hv).
  - destruct Hv as (_ & _ & _ & _ & Hr). subst P. lra.
Qed.

(** The running expense is never negative and never decreases. *)
Lemma expenseQ_mono (k : nat) :
  0 <= snd (trajectoryQ s k) /\
  snd (trajectoryQ s k) <= snd (trajectoryQ s (S k)).
Proof.
  destruct rates_positive as [HX _].
  assert (H0 : 0 <= snd (trajectoryQ s k)).
  { induction k as [|k IH].
    - exact (valid_annualExpenseQ s Hv).
    - cbn [trajectoryQ]. destruct (trajectoryQ s k) as [b e].
      cbn [snd] in IH.
      destruct (_ <? _)%Z; cbn [snd]; [|exact IH].
      apply Qmult_le_0_compat; [exact IH|]. fold X. lra. }
  split; [exact H0|].
  cbn [trajectoryQ]. destruct (trajectoryQ s k) as [b e]. cbn [snd] in *.
  destruct (_ <? _)%Z; cbn [snd]; [|apply Qle_refl].
  fold X. rewrite <- (Qmult_1_r e) at 1.
  apply Qmult_le_compat_nonneg; split; lra.
Qed.

End Trajectory.

Lemma expenseQ_mono_le (s : CalculatorState) (j k : nat) :
  valid_input s -> (j <= k)%nat ->
  (snd (trajectoryQ s j) <= snd (trajectoryQ s k))%Q.
Proof.
  intros Hv Hjk. induction Hjk as [|k Hjk IH].
  - apply Qle_refl.
  - eapply Qle_trans; [exact IH|]. apply (expenseQ_mono s Hv k).
Qed.



(** X7.  For every input record no point of the chart has a negative
    balance, and every value shown that is finite is a whole number: a
    finite balance is a non-negative integer and finite expenses are an
    integer. *)
Theorem chart_points_whole_numbers (s : CalculatorState) :
  let ch := Types.chartData (calculateRetirementMetrics s) in
  Forall (fun p => (balance p <? Fin 0) = false) ch /\
  Forall (fun p =>
            (isFinite (balance p) = true ->
             exists zb : Z, (0 <= zb)%Z /\ balance p = ofZ zb) /\
            (isFinite (expenses p) = true ->
             exists ze : Z, expenses p = ofZ ze)) ch.
Proof.
  cbn zeta. cbn [calculateRetirementMetrics Types.chartData].
  rewrite chartData_passes. split.
  - apply Forall_forall. intros p Hp.
    apply in_map_iff in Hp. destruct Hp as (k & <- & _).
    apply max_zero_not_negative.
  - apply Forall_forall. intros p Hp.
    apply in_map_iff in Hp. destruct Hp as (k & <- & _).
    cbn [balance expenses pushed_point]. split.
    + destruct (currentBalance (loop_state s k)) as [b| | |];
        cbn [round max ltb isFinite]; try discriminate.
      * intros _.
        destruct (Qltb 0 (inject_Z (Qfloor (b + (1 # 2))))) eqn:E.
        -- exists (Qfloor (b + (1 # 2))).
           apply Qltb_lt in E. rewrite <- (Zlt_Qlt 0) in E.
           split; [lia | reflexivity].
        -- exists 0%Z. split; [lia | reflexivity].
      * intros _. exists 0%Z. split; [lia | reflexivity].
    + destruct (currentAnnualExpense (loop_state s k)) as [e| | |];
        cbn [round isFinite]; try discriminate.
      intros _. now exists (Qfloor (e + (1 # 2))).
Qed.

(** X7 on the scenario, at the point of age 55. *)
Lemma chart_points_whole_numbers_witness :
  (exists zb : Z, (0 <= zb)%Z /\ Fin 48888079 = ofZ zb) /\
  (exists ze : Z, Fin 2149017 = ofZ ze).
Proof.
  destruct (chart_points_whole_numbers scenario) as [_ H].
  rewrite Forall_forall in H.
  destruct (H {| age := 55; balance := Fin 48888079;
                 expenses := Fin 2149017 |}) as [Hb He].
  - vm_compute. left. reflexivity.
  - split; [apply Hb | apply He]; reflexivity.
Defined.

(* ------------------------------------------------------------------ *)
(** ** The compact format and the gap card *)

Lemma Qfloor_lower (y : Q) (z : Z) :
  (inject_Z z <= y)%Q -> (z <= Qfloor y)%Z.
Proof.
  intros H. pose proof (Qfloor_resp_le _ _ H) as L.
  now rewrite Qfloor_Z in L.
Qed.

Lemma Qfloor_upper (y : Q) (z : Z) :
  (y < inject_Z (z + 1))%Q -> (Qfloor y <= z)%Z.
Proof.
  intros H. pose proof (Qfloor_le y) as U.
  assert (U' : (inject_Z (Qfloor y) < inject_Z (z + 1))%Q) by lra.
  rewrite <- Zlt_Qlt in U'. lia.
Qed.

#[global] Instance hundredths_proper :
  Proper (Qeq ==> eq) NumberFormat.hundredths.
Proof.
  intros x y H. unfold NumberFormat.hundredths. now rewrite H.
Qed.

#[global] Instance fixed2_proper : Proper (Qeq ==> eq) NumberFormat.fixed2.
Proof.
  intros x y H. unfold NumberFormat.fixed2. now rewrite H.
Qed.

Section CompactFacts.

Variable intlFormat : num -> string.
Variable largeToString : Q -> string.

Let compact := Compact.formatCompactINR intlFormat largeToString.

Lemma compact_small (q : Q) :
  (q < 100000)%Q -> compact (Fin q) = intlFormat (Fin q).
Proof.
  intros H. unfold compact, Compact.formatCompactINR. cbn [geb ltb].
  assert (E1 : Qltb q 10000000 = true) by (apply Qltb_lt; lra).
  assert (E2 : Qltb q 100000 = true) by (apply Qltb_lt; lra).
  rewrite E1, E2. reflexivity.
Qed.

Lemma compact_lakh (q : Q) :
  (100000 <= q)%Q -> (q < 10000000)%Q ->
  compact (Fin q) =
  ("₹" ++ NumberFormat.fixed2 (Qred (q / 100000)) ++ " L")%string /\
  (100 <= NumberFormat.hundredths (Qred (q / 100000)) <= 10000)%Z.
Proof.
  intros H1 H2. unfold compact, Compact.formatCompactINR. cbn [geb ltb].
  assert (E1 : Qltb q 10000000 = true) by (apply Qltb_lt; lra).
  assert (E2 : Qltb q 100000 = false) by (apply Qltb_ge; lra).
  rewrite E1, E2. cbn [negb].
  rewrite div_fin by discriminate. unfold fin.
  assert (Ex : (Qred (q / 100000) == q * (1 # 100000))%Q)
    by (rewrite Qred_correct; reflexivity).
  assert (Ea : (Qabs (Qred (q / 100000)) == q * (1 # 100000))%Q)
    by (rewrite Qabs_pos; rewrite Ex; [reflexivity | lra]).
  split.
  - cbn [NumberFormat.toFixed2].
    replace (Qle_bool (10 ^ 21) (Qabs (Qred (q / 100000)))) with false;
      [reflexivity|].
    symmetry. apply not_true_iff_false. rewrite Qle_bool_iff, Ea.
    change (10 ^ 21)%Q with (1000000000000000000000 # 1)%Q. lra.
  - unfold NumberFormat.hundredths. rewrite Ea. split.
    + apply Qfloor_lower. change (inject_Z 100) with 100%Q. lra.
    + apply Qfloor_upper. change (inject_Z (10000 + 1)) with 10001%Q. lra.
Qed.

End CompactFacts.

(** X10.  [formatCompactINR] shows NaN as the zero display and positive
    infinity as ["₹Infinity Cr"]; negative infinity and every finite
    amount below 100000, every negative amount included, go to
    [formatINR] and from there to the platform formatter unchanged. *)
Theorem formatCompactINR_edges
    (intlFormat : num -> string) (largeToString : Q -> string) :
  let compact := Compact.formatCompactINR intlFormat largeToString in
  compact NaN = "₹0"%string /\
  compact PInf = "₹Infinity Cr"%string /\
  compact NInf = intlFormat NInf /\
  (forall q : Q, (q < 100000)%Q -> compact (Fin q) = intlFormat (Fin q)).
Proof.
  cbn zeta. repeat split. apply compact_small.
Qed.

(** X10 on an amount of minus five crore. *)
Lemma formatCompactINR_edges_witness :
  Compact.formatCompactINR Intl.en_IN_currency (fun _ => EmptyString)
    (Fin (-50000000)) = "-₹5,00,00,000"%string.
Proof.
  destruct (formatCompactINR_edges Intl.en_IN_currency
              (fun _ => EmptyString)) as (_ & _ & _ & H).
  rewrite H; [vm_compute; reflexivity | reflexivity].
Defined.

(** X11.  [formatCompactINR] divides in binary64 and [toFixed(2)] takes
    the two decimals of the exact value of the rounded quotient.  The
    amounts 100500 and 10050000, whose quotients come out just below
    1.005, are shown as 1.00 L and 1.00 Cr, where the exact quotient 1.005
    would be shown as 1.01; 100600, 150000 and 25000000 are shown as
    1.01 L, 1.50 L and 2.50 Cr. *)
Theorem formatCompactINR_rounded_quotient
  (intlFormat largeToString : float -> string) :
  let compact := F64.formatCompactINR intlFormat largeToString in
  (F64.toQ (100500 / 100000) < 1005 # 1000)%Q /\
  (F64.toQ (10050000 / 10000000) < 1005 # 1000)%Q /\
  compact 100500%float = "₹1.00 L"%string /\
  compact 10050000%float = "₹1.00 Cr"%string /\
  NumberFormat.fixed2 (1005 # 1000) = "1.01"%string /\
  compact 100600%float = "₹1.01 L"%string /\
  compact 150000%float = "₹1.50 L"%string /\
  compact 25000000%float = "₹2.50 Cr"%string.
Proof.
  cbn zeta. repeat split; vm_compute; reflexivity.
Qed.

(** X12.  Every finite amount from 9999500 up to, not including, one
    crore is shown as ["₹100.00 L"]: the lakh figure rounds up to a
    hundred before the crore unit takes over. *)
Theorem formatCompactINR_hundred_lakh
    (intlFormat : num -> string) (largeToString : Q -> string) (q : Q) :
  (9999500 <= q)%Q -> (q < 10000000)%Q ->
  Compact.formatCompactINR intlFormat largeToString (Fin q)
  = "₹100.00 L"%string.
Proof.
  intros H1 H2.
  destruct (compact_lakh intlFormat largeToString q) as [-> [_ Hu]];
    [lra | exact H2 |].
  assert (Ex : (Qred (q / 100000) == q * (1 # 100000))%Q)
    by (rewrite Qred_correct; reflexivity).
  assert (Hl : (10000 <= NumberFormat.hundredths (Qred (q / 100000)))%Z).
  { unfold NumberFormat.hundredths. apply Qfloor_lower.
    rewrite Qabs_pos; rewrite Ex; [|lra].
    change (inject_Z 10000) with 10000%Q. lra. }
  unfold NumberFormat.fixed2.
  replace (NumberFormat.hundredths (Qred (q / 100000))) with 10000%Z by lia.
  replace (Qltb (Qred (q / 100000)) 0) with false; [reflexivity|].
  symmetry. apply Qltb_ge. rewrite Ex. lra.
Qed.

(** X12 on 99,99,999 rupees. *)
Lemma formatCompactINR_hundred_lakh_witness :
  Compact.formatCompactINR Intl.en_IN_currency (fun _ => EmptyString)
    (Fin 9999999) = "₹100.00 L"%string.
Proof.
  apply formatCompactINR_hundred_lakh; [discriminate | reflexivity].
Defined.

(** X13.  The gap card is headed ["Shortfall Gap"] exactly when
    [requiredCorpus > projectedExistingSavings].  Whenever it is headed
    ["Surplus Wealth"] the amount it shows is the display of zero (what
    the platform formatter writes for 0, or the ["₹0"] of [formatINR]
    when the gap is NaN): the size of the surplus is never shown. *)
Theorem gap_card_surplus_shows_zero
    (intlFormat : num -> string) (largeToString : Q -> string)
    (s : CalculatorState) :
  let r := calculateRetirementMetrics s in
  (App.gapHeading r = "Shortfall Gap"%string <->
   (Types.projectedExistingSavings r <? Types.requiredCorpus r) = true) /\
  (App.gapHeading r = "Surplus Wealth"%string ->
   App.gapAmount intlFormat largeToString r = intlFormat (Fin 0) \/
   (Types.gap r = NaN /\
    App.gapAmount intlFormat largeToString r = "₹0"%string)).
Proof.
  cbn zeta. unfold App.gapHeading, App.gapAmount.
  cbn [calculateRetirementMetrics Types.gap Types.requiredCorpus
    Types.projectedExistingSavings].
  destruct (gap_sign s) as (Hs & _ & Hz). rewrite <- Hs.
  destruct (Fin 0 <? Formatters.gap s) eqn:E.
  - split; [split; reflexivity | discriminate].
  - split; [split; discriminate|]. intros _.
    destruct (Hz eq_refl) as [-> | [-> _]].
    + left. reflexivity.
    + right. split; reflexivity.
Qed.

(** X13 on a well funded plan, whose surplus is about 8 crore. *)
Lemma gap_card_surplus_shows_zero_witness :
  App.gapHeading (calculateRetirementMetrics well_funded)
    = "Surplus Wealth"%string /\
  (App.gapAmount Intl.en_IN_currency (fun _ => EmptyString)
     (calculateRetirementMetrics well_funded) = "₹0"%string \/
   (Types.gap (calculateRetirementMetrics well_funded) = NaN /\
    App.gapAmount Intl.en_IN_currency (fun _ => EmptyString)
      (calculateRetirementMetrics well_funded) = "₹0"%string)).
Proof.
  assert (H : App.gapHeading (calculateRetirementMetrics well_funded)
              = "Surplus Wealth"%string) by (vm_compute; reflexivity).
  split; [exact H|].
  destruct (gap_card_surplus_shows_zero Intl.en_IN_currency
              (fun _ => EmptyString) well_funded) as [_ Hz].
  exact (Hz H).
Defined.

(* ------------------------------------------------------------------ *)
(** ** The input components *)



(** X15.  Whatever the text parses to, the value [NumberInput] hands to
    [onChange] is never NaN: a text that parses to NaN or to zero gives
    [0], and every other parsed number, an infinity included, is passed
    on unchanged. *)
Theorem numberInputChange_total
    (parseFloat : string -> num) (text : string) :
  let v := InputComponents.numberInputChange parseFloat text in
  isNaN v = false /\
  (parseFloat text = NaN -> v = Fin 0) /\
  (forall q : Q, parseFloat text = Fin q -> ~ (q == 0)%Q -> v = Fin q) /\
  (forall q : Q, parseFloat text = Fin q -> (q == 0)%Q -> v = Fin 0) /\
  (isFinite (parseFloat text) = false -> isNaN (parseFloat text) = false ->
   v = parseFloat text).
Proof.
  cbn zeta. unfold InputComponents.numberInputChange, InputComponents.orElse.
  destruct (parseFloat text) as [q| | |] eqn:E; cbn [InputComponents.truthy].
  - destruct (Qeq_bool q 0) eqn:Eq; cbn [negb isNaN].
    + apply Qeq_bool_iff in Eq.
      split; [reflexivity | split; [discriminate | split; [|split]]].
      * intros q' [= <-] H. contradiction.
      * reflexivity.
      * discriminate.
    + apply Qeq_bool_neq in Eq.
      split; [reflexivity | split; [discriminate | split; [|split]]].
      * now intros q' [= <-] _.
      * intros q' [= <-] H. contradiction.
      * discriminate.
  - repeat split; try discriminate.
  - repeat split; try discriminate.
  - repeat split; try discriminate.
Qed.

(** X15 with a parser that fails on every text. *)
Lemma numberInputChange_total_witness :
  InputComponents.numberInputChange (fun _ => NaN) EmptyString = Fin 0.
Proof.
  destruct (numberInputChange_total (fun _ => NaN) EmptyString)
    as (_ & H & _).
  apply H. reflexivity.
Defined.

(* ------------------------------------------------------------------ *)
(** ** End of the chart, savings and lower bounds *)

Lemma chartData_nth_pushed (s : CalculatorState) (k : nat) :
  (k < List.length (Formatters.chartData s))%nat ->
  nth_error (Formatters.chartData s) k = Some (pushed_point s k).
Proof.
  intros Hk. rewrite chartData_passes in *.
  rewrite length_map, length_seq in Hk.
  rewrite (nth_error_nth' _ (pushed_point s 0))
    by (now rewrite length_map, length_seq).
  now rewrite map_nth, seq_nth.
Qed.

(** X16.  For every input record whose [retirementAge] is at most
    [lifeExpectancy + 5] (as the sliders of the form guarantee), the chart
    has exactly [lifeExpectancy + 6 - retirementAge] points and its last
    point has age [lifeExpectancy + 5] exactly. *)
Theorem chart_ends_five_years_after (s : CalculatorState) :
  (retirementAge s <= lifeExpectancy s + 5)%Z ->
  let ch := Types.chartData (calculateRetirementMetrics s) in
  Z.of_nat (List.length ch) = (lifeExpectancy s + 6 - retirementAge s)%Z /\
  exists p,
    nth_error ch (List.length ch - 1) = Some p /\
    age p = (lifeExpectancy s + 5)%Z.
Proof.
  intros H. cbn zeta. cbn [calculateRetirementMetrics Types.chartData].
  assert (Hlen : Z.of_nat (List.length (Formatters.chartData s)) =
                 (lifeExpectancy s + 6 - retirementAge s)%Z).
  { rewrite chartData_passes, length_map, length_seq.
    unfold Formatters.yearsInRetirement. lia. }
  split; [exact Hlen|].
  exists (pushed_point s (List.length (Formatters.chartData s) - 1)). split.
  - apply chartData_nth_pushed. lia.
  - cbn [age pushed_point]. lia.
Qed.

(** X16 on the scenario: 36 points, the last one of age 90. *)
Lemma chart_ends_five_years_after_witness :
  Z.of_nat (List.length (Types.chartData (calculateRetirementMetrics scenario)))
  = 36%Z.
Proof.
  destruct (chart_ends_five_years_after scenario) as [H _].
  - discriminate.
  - exact H.
Defined.

(** X17.  More savings never raise the gap: for [e1 <= e2], all other
    fields being the same, the gap computed with [existingSavings = e2] is
    never above the gap computed with [existingSavings = e1]. *)
Theorem gap_antitone_in_savings (s : CalculatorState) (e1 e2 : Q) :
  (e1 <= e2)%Q ->
  (Types.gap (calculateRetirementMetrics (with_savings s e1)) <?
   Types.gap (calculateRetirementMetrics (with_savings s e2))) = false.
Proof.
  intros H12.
  cbn [calculateRetirementMetrics Types.gap]. unfold Formatters.gap.
  change (Formatters.requiredCorpus (with_savings s e1))
    with (Formatters.requiredCorpus s).
  change (Formatters.requiredCorpus (with_savings s e2))
    with (Formatters.requiredCorpus s).
  pose proof (projectedExistingSavings_val (with_savings s e1)) as H1.
  pose proof (projectedExistingSavings_val (with_savings s e2)) as H2.
  change (Formatters.yearsToRetirement (with_savings s e1))
    with (Formatters.yearsToRetirement s) in H1.
  change (Formatters.yearsToRetirement (with_savings s e2))
    with (Formatters.yearsToRetirement s) in H2.
  cbn [with_savings existingSavings] in H1, H2.
  destruct (Formatters.projectedExistingSavings (with_savings s e1))
    as [p1| | |]; cbn [equiv] in H1; try contradiction.
  destruct (Formatters.projectedExistingSavings (with_savings s e2))
    as [p2| | |]; cbn [equiv] in H2; try contradiction.
  assert (Hp : (p1 <= p2)%Q).
  { rewrite H1, H2. apply Qmult_le_compat_r; [exact H12|].
    apply Qpower_0_le. discriminate. }
  destruct (Formatters.requiredCorpus s) as [c| | |]; try reflexivity.
  rewrite !sub_fin. unfold fin. cbn [max ltb].
  destruct (Qltb 0 (Qred (c - p2))) eqn:E2;
    destruct (Qltb 0 (Qred (c - p1))) eqn:E1;
    cbn [ltb]; apply Qltb_ge;
    rewrite ?Qltb_lt, ?Qltb_ge in *; rewrite ?Qred_correct in *; lra.
Qed.

(** X17 on the scenario, from savings of 50 lakh to savings of 1 crore. *)
Lemma gap_antitone_in_savings_witness :
  (Types.gap (calculateRetirementMetrics (with_savings scenario 5000000)) <?
   Types.gap (calculateRetirementMetrics (with_savings scenario 10000000)))
  = false.
Proof.
  apply gap_antitone_in_savings. discriminate.
Defined.


